(** * Sample-data loader ([src/utilities/loadSampleData.ts])

    A shallow embedding of the seeding script: the fixture listing, the
    database reset, the per-collection load loop, the count report and the
    entry point, written over an explicit world (filesystem, document store,
    driver sessions, console) in a small monad with JavaScript's three ways
    of leaving a block: a value, a thrown error, or [process.exit]. *)

From Stdlib Require Import List String Ascii Bool Arith ZArith Lia.
From Stdlib Require Import Decimal DecimalString.
Import ListNotations.
Open Scope string_scope.

Set Warnings "-register-all".

(* ===================================================================== *)
(** ** Strings as the script uses them *)
(* ===================================================================== *)

Module Js.

(** A control character given by its code ("\x1b", "\n"). *)
Definition chr (n : nat) : string := String (ascii_of_nat n) "".

Definition esc : string := chr 27.
Definition nl : string := chr 10.

(** ["\x1b[31m"] and ["\x1b[35m"], the two colour prefixes of the script. *)
Definition red : string := esc ++ "[31m".
Definition magenta : string := esc ++ "[35m".

Fixpoint fill (c : ascii) (n : nat) : string :=
  match n with
  | O => ""
  | S k => String c (fill c k)
  end.

(** [s.padEnd(n, c)] for a one-character filler: pads on the right up to
    length [n], never truncates. *)
Definition padEnd (s : string) (n : nat) (c : ascii) : string :=
  s ++ fill c (n - String.length s).

(** [n.toString()] for a non-negative integer. *)
Definition toString_nat (n : nat) : string :=
  NilZero.string_of_uint (Nat.to_uint n).

(** [s.split(",")]. *)
Fixpoint split_comma (s : string) : list string :=
  match s with
  | EmptyString => [""]
  | String c rest =>
      if Ascii.eqb c ","%char then "" :: split_comma rest
      else match split_comma rest with
           | h :: t => String c h :: t
           | [] => [String c ""]
           end
  end.

(** [console.log(a, b)] prints its arguments separated by one space. *)
Definition two_args (a b : string) : string := a ++ " " ++ b.

End Js.

(* ===================================================================== *)
(** ** JSON values and the errors of the runtime *)
(* ===================================================================== *)

(** What [${err}] needs of an error value. *)
Record JsError := { err_name : string; err_message : string }.

Definition TypeError (msg : string) : JsError :=
  {| err_name := "TypeError"; err_message := msg |}.

(** The values [JSON.parse] can return.  A number carries the text that
    its [toString()] gives; an object carries its own properties; a string
    has one character for each UTF-16 code unit. *)
Inductive JSON :=
| JNull
| JBool (b : bool)
| JNumber (repr : string)
| JString (s : string)
| JArray (elems : list JSON)
| JObject (members : list (string * JSON)).

Fixpoint own_property (key : string) (members : list (string * JSON))
  : option JSON :=
  match members with
  | [] => None
  | (k, v) :: rest => if String.eqb k key then Some v else own_property key rest
  end.

Definition has_own (key : string) (members : list (string * JSON)) : bool :=
  match own_property key members with Some _ => true | None => false end.

(** [String(v)] as [Array.prototype.join] applies it to an element:
    [None] when the conversion throws (an object whose own, non-callable
    [toString] shadows the inherited one). *)
Fixpoint js_String (v : JSON) : option string :=
  match v with
  | JNull => Some "null"
  | JBool true => Some "true"
  | JBool false => Some "false"
  | JNumber r => Some r
  | JString s => Some s
  | JArray elems =>
      (fix join (l : list JSON) : option string :=
         match l with
         | [] => Some ""
         | x :: rest =>
             let piece := match x with JNull => Some "" | _ => js_String x end in
             match piece, rest with
             | None, _ => None
             | Some p, [] => Some p
             | Some p, _ :: _ =>
                 match join rest with
                 | Some q => Some (p ++ "," ++ q)
                 | None => None
                 end
             end
         end) elems
  | JObject members =>
      if has_own "toString" members then None else Some "[object Object]"
  end.

(** [docs.length]: [inl] when reading the property throws, [inr None] for
    [undefined]. *)
Definition get_length (docs : JSON) : JsError + option JSON :=
  match docs with
  | JNull => inl (TypeError "Cannot read properties of null (reading 'length')")
  | JBool _ | JNumber _ => inr None
  | JString s => inr (Some (JNumber (Js.toString_nat (String.length s))))
  | JArray elems => inr (Some (JNumber (Js.toString_nat (List.length elems))))
  | JObject members => inr (own_property "length" members)
  end.

(** [x.toString()] on the value read from [docs.length]. *)
Definition call_toString (x : option JSON) : JsError + string :=
  match x with
  | None =>
      inl (TypeError "Cannot read properties of undefined (reading 'toString')")
  | Some JNull =>
      inl (TypeError "Cannot read properties of null (reading 'toString')")
  | Some (JObject members) =>
      if has_own "toString" members
      then inl (TypeError "docs.length.toString is not a function")
      else inr "[object Object]"
  | Some v =>
      match js_String v with
      | Some s => inr s
      | None => inl (TypeError "Cannot convert object to primitive value")
      end
  end.

(** [docs.length.toString()]. *)
Definition length_toString (docs : JSON) : JsError + string :=
  match get_length docs with
  | inl e => inl e
  | inr x => call_toString x
  end.

(* ===================================================================== *)
(** ** The world the script runs in *)
(* ===================================================================== *)

(** The ten Mongoose models the script imports. *)
Inductive Model :=
| Community | User | Organization | ActionItemCategory | AgendaCategoryModel
| Event | Venue | RecurrenceRule | Post | AppUserProfile.

Definition Model_eq_dec (a b : Model) : {a = b} + {a <> b}.
Proof. decide equality. Defined.

Definition Model_eqb (a b : Model) : bool :=
  if Model_eq_dec a b then true else false.

Definition SessionId := nat.

(** The sample-data directory as the three [fs] calls see it.  A path is
    the text the script appends to the directory: the entry name in the
    listing, [<collection>.json] in the load. *)
Record FileSystem := {
  readdir : JsError + list string;
  stat_isFile : string -> JsError + bool;
  readFile : string -> JsError + string
}.

(** Calls that reach the database driver, in the order they are issued. *)
Inductive Call :=
| Connect (dbName : string)
| StartSession
| BeginTransaction (s : SessionId)
| DeleteMany (m : Model) (session : option SessionId)
| CommitTransaction (s : SessionId)
| AbortTransaction (s : SessionId)
| EndSession (s : SessionId)
| InsertMany (m : Model) (docs : JSON)
| CountDocuments (m : Model).

(** A failing round trip: the error it raises and, for a bulk insert or a
    bulk deletion, how many documents it had written or removed before. *)
Record Fault := { error : JsError; written : nat }.

Definition Store := Model -> list JSON.

Inductive Line :=
| stdout (text : string)
| stderr (text : string) (cause : JsError).

Record World := {
  fs : FileSystem;
  faults : nat -> option Fault;   (* which round trips fail, by number *)
  tick : nat;                     (* round trips made so far *)
  db : Store;
  txn : option (SessionId * list Model);
      (* the open transaction and the deletions waiting for its commit *)
  next_session : SessionId;
  live_sessions : list SessionId;
  console : list Line;
  calls : list Call
}.

Definition set_tick (n : nat) (w : World) : World :=
  {| fs := fs w; faults := faults w; tick := n; db := db w; txn := txn w;
     next_session := next_session w; live_sessions := live_sessions w;
     console := console w; calls := calls w |}.

Definition set_db (d : Store) (w : World) : World :=
  {| fs := fs w; faults := faults w; tick := tick w; db := d; txn := txn w;
     next_session := next_session w; live_sessions := live_sessions w;
     console := console w; calls := calls w |}.

Definition set_txn (t : option (SessionId * list Model)) (w : World) : World :=
  {| fs := fs w; faults := faults w; tick := tick w; db := db w; txn := t;
     next_session := next_session w; live_sessions := live_sessions w;
     console := console w; calls := calls w |}.

Definition set_sessions (next : SessionId) (live : list SessionId) (w : World)
  : World :=
  {| fs := fs w; faults := faults w; tick := tick w; db := db w; txn := txn w;
     next_session := next; live_sessions := live;
     console := console w; calls := calls w |}.

Definition set_console (c : list Line) (w : World) : World :=
  {| fs := fs w; faults := faults w; tick := tick w; db := db w; txn := txn w;
     next_session := next_session w; live_sessions := live_sessions w;
     console := c; calls := calls w |}.

Definition set_calls (c : list Call) (w : World) : World :=
  {| fs := fs w; faults := faults w; tick := tick w; db := db w; txn := txn w;
     next_session := next_session w; live_sessions := live_sessions w;
     console := console w; calls := c |}.

(** A new process on the same files and the same database: nothing on
    the console, no session, and failures of its own. *)
Definition restart (w : World) (failures : nat -> option Fault) : World :=
  {| fs := fs w; faults := failures; tick := 0; db := db w; txn := None;
     next_session := 0; live_sessions := []; console := []; calls := [] |}.

(** Replace the documents of one collection. *)
Definition put (m : Model) (docs : list JSON) (d : Store) : Store :=
  fun m' => if Model_eq_dec m m' then docs else d m'.

(* ===================================================================== *)
(** ** Control flow: values, thrown errors and [process.exit] *)
(* ===================================================================== *)

Inductive Outcome (A : Type) :=
| Ok (a : A)
| Throw (e : JsError)
| Exit (code : Z).

Arguments Ok {A} a.
Arguments Throw {A} e.
Arguments Exit {A} code.

Definition M (A : Type) := World -> Outcome A * World.

Definition ret {A} (a : A) : M A := fun w => (Ok a, w).

Definition bind {A B} (m : M A) (k : A -> M B) : M B :=
  fun w =>
    match m w with
    | (Ok a, w1) => k a w1
    | (Throw e, w1) => (Throw e, w1)
    | (Exit c, w1) => (Exit c, w1)
    end.

Definition throw {A} (e : JsError) : M A := fun w => (Throw e, w).

Declare Scope js_scope.
Delimit Scope js_scope with js.
Notation "x <- m ;; k" := (bind m (fun x => k))
  (at level 61, m at next level, right associativity) : js_scope.
Notation "m ;; k" := (bind m (fun _ => k))
  (at level 61, right associativity) : js_scope.
Open Scope js_scope.

(** [try { body } catch (e) { handler e }]. *)
Definition try_catch {A} (body : M A) (handler : JsError -> M A) : M A :=
  fun w =>
    match body w with
    | (Throw e, w1) => handler e w1
    | r => r
    end.

(** [try { body } finally { cleanup }]: the cleanup runs after a value and
    after a throw; what it throws, or its exit, replaces the outcome of the
    body. *)
Definition try_finally {A} (body : M A) (cleanup : M unit) : M A :=
  fun w =>
    match body w with
    | (Exit c, w1) => (Exit c, w1)
    | (o, w1) =>
        match cleanup w1 with
        | (Ok _, w2) => (o, w2)
        | (Throw e, w2) => (Throw e, w2)
        | (Exit c, w2) => (Exit c, w2)
        end
    end.

(** [for (const x of xs) { body x }]. *)
Fixpoint for_of {A} (xs : list A) (body : A -> M unit) : M unit :=
  match xs with
  | [] => ret tt
  | x :: rest => body x ;; for_of rest body
  end.

(** [await p] for a promise that is already settled. *)
Definition await {A} (r : JsError + A) : M A :=
  match r with
  | inl e => throw e
  | inr a => ret a
  end.

Definition process_exit (code : Z) : M unit := fun w => (Exit code, w).

Definition console_log (text : string) : M unit :=
  fun w => (Ok tt, set_console (console w ++ [stdout text]) w).

Definition console_error (text : string) (cause : JsError) : M unit :=
  fun w => (Ok tt, set_console (console w ++ [stderr text cause]) w).

(* ===================================================================== *)
(** ** The filesystem and the database driver *)
(* ===================================================================== *)

Definition fs_readdir : M (list string) := fun w => await (readdir (fs w)) w.

Definition fs_stat_isFile (path : string) : M bool :=
  fun w => await (stat_isFile (fs w) path) w.

Definition fs_readFile (path : string) : M string :=
  fun w => await (readFile (fs w) path) w.

(** One round trip to the server: the call is recorded and numbered, and
    the world says whether this one fails. *)
Definition round_trip (c : Call) : M (option Fault) :=
  fun w => (Ok (faults w (tick w)),
            set_calls (calls w ++ [c]) (set_tick (S (tick w)) w)).

(** A driver call that stays on the client. *)
Definition local_call (c : Call) : M unit :=
  fun w => (Ok tt, set_calls (calls w ++ [c]) w).

(** Modelled from the spec: [connect] of [../db], whose source is not part
    of this development.  It is "a connect operation taking a database
    name" that establishes the connection; a connection failure is a
    database error, raised to the caller like the other failing round
    trips. *)
Definition connect (dbName : string) : M unit :=
  f <- round_trip (Connect dbName) ;;
  match f with
  | Some f => throw (error f)
  | None => ret tt
  end.

(** [mongoose.startSession()]: a new session, live until it is ended. *)
Definition startSession : M SessionId :=
  f <- round_trip StartSession ;;
  match f with
  | Some f => throw (error f)
  | None =>
      fun w => (Ok (next_session w),
                set_sessions (S (next_session w))
                             (next_session w :: live_sessions w) w)
  end.

Definition owns (s : SessionId) (t : option (SessionId * list Model)) : bool :=
  match t with
  | Some (s', _) => Nat.eqb s s'
  | None => false
  end.

(** [session.endSession()]: the driver drops a transaction that is still
    open, releases the session and reports no error of its own. *)
Definition endSession (s : SessionId) : M unit :=
  local_call (EndSession s) ;;
  fun w =>
    (Ok tt,
     set_sessions (next_session w) (remove Nat.eq_dec s (live_sessions w))
       (if owns s (txn w) then set_txn None w else w)).

(** A deletion outside any transaction: on success the collection is
    empty; a failing one has removed the documents it reached before the
    error. *)
Definition delete_now (m : Model) (f : option Fault) : M unit :=
  fun w =>
    match f with
    | Some f =>
        (Throw (error f),
         set_db (put m (skipn (written f) (db w m)) (db w)) w)
    | None => (Ok tt, set_db (put m [] (db w)) w)
    end.

(** [Model.deleteMany({}, { session })].  A deletion that names the session
    of the open transaction waits for the commit; one that names no
    session, as every deletion of the script does, is applied at once and
    belongs to no transaction. *)
Definition deleteMany (m : Model) (session : option SessionId) : M unit :=
  f <- round_trip (DeleteMany m session) ;;
  fun w =>
    match session, txn w with
    | Some s, Some (s', pending) =>
        if Nat.eqb s s'
        then match f with
             | Some f => (Throw (error f), w)
             | None => (Ok tt, set_txn (Some (s', (pending ++ [m])%list)) w)
             end
        else delete_now m f w
    | _, _ => delete_now m f w
    end.

Definition apply_pending (pending : list Model) (d : Store) : Store :=
  fold_left (fun d m => put m [] d) pending d.

Definition pending_of (t : option (SessionId * list Model)) : list Model :=
  match t with
  | Some (_, pending) => pending
  | None => []
  end.

(** [session.withTransaction(callback)]: start a transaction, run the
    callback, commit when it returns and abort when it throws; an abort
    drops the deletions that were waiting, and the error goes to the
    caller.  The driver's retry of transient errors is not modelled.
    The commit is a round trip in every case, also for a transaction
    that no operation has joined, which the driver completes on the
    client without a command: the model allows a failure there that the
    driver does not have, so what holds in every world holds of the
    driver's runs as well. *)
Definition withTransaction (s : SessionId) (callback : M unit) : M unit :=
  local_call (BeginTransaction s) ;;
  (fun w => (Ok tt, set_txn (Some (s, [])) w)) ;;
  try_catch
    (callback ;;
     f <- round_trip (CommitTransaction s) ;;
     match f with
     | Some f => throw (error f)
     | None =>
         fun w => (Ok tt,
                   set_txn None (set_db (apply_pending (pending_of (txn w)) (db w)) w))
     end)
    (fun e =>
       local_call (AbortTransaction s) ;;
       (fun w => (Ok tt, set_txn None w)) ;;
       throw e).

(** [Model.countDocuments()]. *)
Definition countDocuments (m : Model) : M nat :=
  f <- round_trip (CountDocuments m) ;;
  match f with
  | Some f => throw (error f)
  | None => fun w => (Ok (List.length (db w m)), w)
  end.

(** The documents [insertMany] is asked to create: the elements of an
    array, or the value itself when it is not an array. *)
Definition docs_of (docs : JSON) : list JSON :=
  match docs with
  | JArray elems => elems
  | v => [v]
  end.

Section Loader.

(** [JSON.parse] of the runtime. *)
Variable JSON_parse : string -> JsError + JSON.

(** What a model stores for a record it is given (casting, defaults,
    generated fields). *)
Variable hydrate : Model -> JSON -> JSON.

(** [Model.insertMany(docs)]: on success every document is stored, in
    order; a failing insert stores the documents written before the error
    and throws. *)
Definition insertMany (m : Model) (docs : JSON) : M unit :=
  f <- round_trip (InsertMany m docs) ;;
  fun w =>
    match f with
    | Some f =>
        (Throw (error f),
         set_db (put m (db w m ++ map (hydrate m) (firstn (written f) (docs_of docs)))
                     (db w)) w)
    | None =>
        (Ok tt, set_db (put m (db w m ++ map (hydrate m) (docs_of docs)) (db w)) w)
    end.

(* --------------------------------------------------------------------- *)
(** *** [listSampleData] *)

Definition table_header (title : string) : string :=
  Js.padEnd title 30 " " ++ "| Document Count |" ++ Js.nl
  ++ Js.padEnd "|" 30 "-" ++ "|----------------|" ++ Js.nl.

Definition table_row (name count : string) : string :=
  "| " ++ Js.padEnd name 28 " " ++ "| " ++ Js.padEnd count 15 " " ++ "|".

(** One turn of the listing loop. *)
Definition list_one (file : string) : M unit :=
  isFile <- fs_stat_isFile file ;;
  if (isFile : bool) then
    data <- fs_readFile file ;;
    docs <- await (JSON_parse data) ;;
    count <- await (length_toString docs) ;;
    console_log (table_row file count)
  else ret tt.

Definition listSampleData : M unit :=
  try_catch
    (files <- fs_readdir ;;
     console_log ("Sample Data Files:" ++ Js.nl) ;;
     console_log (table_header "| File Name") ;;
     for_of files list_one ;;
     console_log "")
    (fun err =>
       console_error (Js.two_args Js.red "Error listing sample data: ") err).

(* --------------------------------------------------------------------- *)
(** *** [resetDatabase] *)

(** The callback handed to [withTransaction]: ten deletions, none of which
    is given the session. *)
Definition resetDatabase_callback : M unit :=
  deleteMany Community None ;;
  deleteMany User None ;;
  deleteMany Organization None ;;
  deleteMany ActionItemCategory None ;;
  deleteMany AgendaCategoryModel None ;;
  deleteMany Event None ;;
  deleteMany Venue None ;;
  deleteMany RecurrenceRule None ;;
  deleteMany Post None ;;
  deleteMany AppUserProfile None.

Definition resetDatabase : M unit :=
  session <- startSession ;;
  try_finally
    (try_catch
       (withTransaction session resetDatabase_callback ;;
        console_log "Database reset completed.")
       (fun error =>
          console_error "Database reset failed: " error ;;
          throw error))
    (endSession session).

(* --------------------------------------------------------------------- *)
(** *** [checkCountAfterImport] *)

Definition count_collections : list (string * Model) :=
  [ ("users", User);
    ("organizations", Organization);
    ("actionItemCategories", ActionItemCategory);
    ("agendaCategories", AgendaCategoryModel);
    ("events", Event);
    ("recurrenceRules", RecurrenceRule);
    ("posts", Post);
    ("venue", Venue);
    ("appUserProfiles", AppUserProfile) ].

(** One turn of the count loop. *)
Definition count_one (entry : string * Model) : M unit :=
  let '(name, model) := entry in
  count <- countDocuments model ;;
  console_log (table_row name (Js.toString_nat count)).

Definition checkCountAfterImport : M unit :=
  try_catch
    (connect "talawa-api" ;;
     console_log (Js.nl ++ "Document Counts After Import:" ++ Js.nl) ;;
     console_log (table_header "| Collection Name") ;;
     for_of count_collections count_one)
    (fun err =>
       console_error (Js.two_args Js.red "Error checking document count: ") err).

(* --------------------------------------------------------------------- *)
(** *** [insertCollections] *)

(** The [switch (collection)] of the load loop. *)
Definition insert_switch (collection : string) (docs : JSON) : M unit :=
  if String.eqb collection "users" then insertMany User docs
  else if String.eqb collection "organizations" then insertMany Organization docs
  else if String.eqb collection "actionItemCategories"
       then insertMany ActionItemCategory docs
  else if String.eqb collection "agendaCategories"
       then insertMany AgendaCategoryModel docs
  else if String.eqb collection "events" then insertMany Event docs
  else if String.eqb collection "venue" then insertMany Venue docs
  else if String.eqb collection "recurrenceRules" then insertMany RecurrenceRule docs
  else if String.eqb collection "posts" then insertMany Post docs
  else if String.eqb collection "appUserProfiles" then insertMany AppUserProfile docs
  else console_log (Js.two_args Js.red ("Invalid collection name: " ++ collection)).

(** One turn of the load loop. *)
Definition insert_one (collection : string) : M unit :=
  data <- fs_readFile (collection ++ ".json") ;;
  docs <- await (JSON_parse data) ;;
  insert_switch collection docs ;;
  console_log (Js.two_args Js.magenta ("Added " ++ collection ++ " collection")).

(** The [try] block of [insertCollections]. *)
Definition insertCollections_try (collections : list string) : M unit :=
  connect "talawa-api" ;;
  resetDatabase ;;
  for_of collections insert_one ;;
  checkCountAfterImport ;;
  console_log (Js.nl ++ "Collections added successfully").

Definition insertCollections (collections : list string) : M unit :=
  try_finally
    (try_catch
       (insertCollections_try collections)
       (fun err =>
          console_error (Js.two_args Js.red "Error adding collections: ") err))
    (process_exit 0).

(* --------------------------------------------------------------------- *)
(** *** The entry point *)

(** The default collections available to insert. *)
Definition collections : list string :=
  [ "users"; "organizations"; "posts"; "events"; "venue"; "recurrenceRules";
    "appUserProfiles"; "actionItemCategories"; "agendaCategories" ].

(** [if (argvItems)]: an absent option and the empty string both take the
    [else] branch. *)
Definition main (argvItems : option string) : M unit :=
  match argvItems with
  | Some (String c rest) =>
      let specificCollections := Js.split_comma (String c rest) in
      listSampleData ;;
      insertCollections specificCollections
  | _ =>
      listSampleData ;;
      insertCollections collections
  end.

(* --------------------------------------------------------------------- *)
(** *** What a run reads and adds *)

(** The [switch] read as a table: the model a collection name selects. *)
Definition model_of (collection : string) : option Model :=
  if String.eqb collection "users" then Some User
  else if String.eqb collection "organizations" then Some Organization
  else if String.eqb collection "actionItemCategories" then Some ActionItemCategory
  else if String.eqb collection "agendaCategories" then Some AgendaCategoryModel
  else if String.eqb collection "events" then Some Event
  else if String.eqb collection "venue" then Some Venue
  else if String.eqb collection "recurrenceRules" then Some RecurrenceRule
  else if String.eqb collection "posts" then Some Post
  else if String.eqb collection "appUserProfiles" then Some AppUserProfile
  else None.

(** The parsed content of [<collection>.json], when the file can be read
    and parsed. *)
Definition fixture (f : FileSystem) (collection : string) : option JSON :=
  match readFile f (collection ++ ".json") with
  | inr data =>
      match JSON_parse data with
      | inr docs => Some docs
      | inl _ => None
      end
  | inl _ => None
  end.

(** The documents one turn of the loop stores in [m]. *)
Definition additions (f : FileSystem) (m : Model) (collection : string)
  : list JSON :=
  match model_of collection, fixture f collection with
  | Some m', Some docs =>
      if Model_eq_dec m' m then map (hydrate m) (docs_of docs) else []
  | _, _ => []
  end.

(** The documents the whole loop stores in [m]. *)
Definition loaded (f : FileSystem) (m : Model) (names : list string)
  : list JSON :=
  flat_map (additions f m) names.

(** The steps of the [try] block that come before the count check. *)
Definition load_steps (collections : list string) : M unit :=
  connect "talawa-api" ;;
  resetDatabase ;;
  for_of collections insert_one.

(** The table [checkCountAfterImport] prints for a store. *)
Definition count_report (d : Store) : list Line :=
  [ stdout (Js.nl ++ "Document Counts After Import:" ++ Js.nl);
    stdout (table_header "| Collection Name") ]
  ++ map (fun '(name, model) =>
            stdout (table_row name (Js.toString_nat (List.length (d model)))))
         count_collections.

(** The list the entry point hands to [insertCollections]. *)
Definition selection (argvItems : option string) : list string :=
  match argvItems with
  | Some (String c rest) => Js.split_comma (String c rest)
  | _ => collections
  end.

(** The count property in the words of the specification: after a load
    that completes, the collection a listed name selects holds as many
    documents as the name's fixture file has records. *)
Definition count_matches_fixture (names : list string) (w : World) : Prop :=
  forall c m records w',
    In c names ->
    model_of c = Some m ->
    insertCollections_try names w = (Ok tt, w') ->
    fixture (fs w) c = Some (JArray records) ->
    List.length (db w' m) = List.length records.

(** The world in which a second run starts after a first one. *)
Definition rerun (argvItems : option string) (failures : nat -> option Fault)
  (w : World) : World :=
  restart (snd (main argvItems w)) failures.

(** What one turn of the listing loop does with a directory entry, read
    off the files alone: it throws, prints nothing (the entry is not a
    regular file), or prints a row with this count. *)
Definition list_entry (f : FileSystem) (file : string)
  : JsError + option string :=
  match stat_isFile f file with
  | inl e => inl e
  | inr false => inr None
  | inr true =>
      match readFile f file with
      | inl e => inl e
      | inr data =>
          match JSON_parse data with
          | inl e => inl e
          | inr docs =>
              match length_toString docs with
              | inl e => inl e
              | inr count => inr (Some count)
              end
          end
      end
  end.

(** The rows the listing prints for entries whose turn does not throw. *)
Definition listed_rows (f : FileSystem) (files : list string) : list Line :=
  flat_map (fun file =>
              match list_entry f file with
              | inr (Some count) => [stdout (table_row file count)]
              | _ => []
              end) files.

(** The bulk inserts a load of these names issues, in order. *)
Definition insert_calls (f : FileSystem) (names : list string) : list Call :=
  flat_map (fun c =>
              match model_of c, fixture f c with
              | Some m, Some docs => [InsertMany m docs]
              | _, _ => []
              end) names.

(** The lines one turn of the load loop prints when it returns: the
    complaint about a name the switch does not know, and the
    confirmation. *)
Definition load_lines (names : list string) : list Line :=
  flat_map
    (fun c =>
       (match model_of c with
        | Some _ => []
        | None =>
            [stdout (Js.two_args Js.red ("Invalid collection name: " ++ c))]
        end
        ++ [stdout (Js.two_args Js.magenta ("Added " ++ c ++ " collection"))])%list)
    names.

(** The rows of the count report for the first entries of the table. *)
Definition count_rows (d : Store) (entries : list (string * Model))
  : list Line :=
  map (fun '(name, model) =>
         stdout (table_row name (Js.toString_nat (List.length (d model)))))
      entries.

(** The run reaches the end of the [try] block of [insertCollections]. *)
Definition load_succeeds (argvItems : option string) (w : World) : Prop :=
  fst (insertCollections_try (selection argvItems) (snd (listSampleData w)))
  = Ok tt.

End Loader.

(* ===================================================================== *)
(** ** A sample world *)
(* ===================================================================== *)

Module Sample.

(** The text of a one-field record, and the value it parses to. *)
Definition quote : string := Js.chr 34.

Definition record_text (field value : string) : string :=
  "{" ++ quote ++ field ++ quote ++ ":" ++ quote ++ value ++ quote ++ "}".

Definition record (field value : string) : JSON :=
  JObject [(field, JString value)].

Definition users_text : string :=
  "[" ++ record_text "firstName" "Ann" ++ ","
      ++ record_text "firstName" "Bob" ++ "]".

Definition events_text : string := "[" ++ record_text "title" "Meetup" ++ "]".

Definition posts_text : string := "[" ++ record_text "text" "Hello" ++ "]".

Definition users_docs : list JSON :=
  [record "firstName" "Ann"; record "firstName" "Bob"].

Definition events_docs : list JSON := [record "title" "Meetup"].

Definition posts_docs : list JSON := [record "text" "Hello"].

(** [JSON.parse] on the texts the sample files hold. *)
Definition parse (text : string) : JsError + JSON :=
  if String.eqb text users_text then inr (JArray users_docs)
  else if String.eqb text events_text then inr (JArray events_docs)
  else if String.eqb text posts_text then inr (JArray posts_docs)
  else inl {| err_name := "SyntaxError";
              err_message := "Unexpected token in JSON" |}.

(** Records are stored as they are given. *)
Definition as_given : Model -> JSON -> JSON := fun _ record => record.

Definition enoent : JsError :=
  {| err_name := "Error"; err_message := "ENOENT: no such file or directory" |}.

Definition eisdir : JsError :=
  {| err_name := "Error";
     err_message := "EISDIR: illegal operation on a directory, read" |}.

Definition network_error : JsError :=
  {| err_name := "MongoNetworkError"; err_message := "connection closed" |}.

(** A directory with three fixtures and one sub-directory. *)
Definition files : FileSystem :=
  {| readdir := inr ["events.json"; "images"; "posts.json"; "users.json"];
     stat_isFile := fun path =>
       if String.eqb path "images" then inr false
       else if String.eqb path "events.json" then inr true
       else if String.eqb path "posts.json" then inr true
       else if String.eqb path "users.json" then inr true
       else inl enoent;
     readFile := fun path =>
       if String.eqb path "images" then inl eisdir
       else if String.eqb path "events.json" then inr events_text
       else if String.eqb path "posts.json" then inr posts_text
       else if String.eqb path "users.json" then inr users_text
       else inl enoent |}.

Definition is_fixture (path : string) : bool :=
  negb (String.eqb path "images").

Definition elements (path : string) : list JSON :=
  if String.eqb path "users.json" then users_docs
  else if String.eqb path "events.json" then events_docs
  else posts_docs.

(** A document left by an earlier run. *)
Definition stale : JSON := record "text" "left by an earlier run".

(** Every collection holds one stale document; nothing fails. *)
Definition world : World :=
  {| fs := files; faults := fun _ => None; tick := 0;
     db := fun _ => [stale]; txn := None;
     next_session := 0; live_sessions := []; console := []; calls := [] |}.

(** The same world, where the third round trip fails: in a reset it is
    [User.deleteMany], after [startSession] and [Community.deleteMany]. *)
Definition world_delete_fails : World :=
  {| fs := files;
     faults := fun n =>
       if Nat.eqb n 2 then Some {| error := network_error; written := 0 |}
       else None;
     tick := 0;
     db := fun _ => [stale]; txn := None;
     next_session := 0; live_sessions := []; console := []; calls := [] |}.

Definition syntax_error : JsError :=
  {| err_name := "SyntaxError"; err_message := "Unexpected token in JSON" |}.

(** A directory where a file that is no fixture comes second. *)
Definition files_with_readme : FileSystem :=
  {| readdir := inr ["events.json"; "README.md"; "users.json"];
     stat_isFile := fun _ => inr true;
     readFile := fun path =>
       if String.eqb path "README.md" then inr "# Sample data"
       else readFile files path |}.

Definition world_with_readme : World :=
  {| fs := files_with_readme; faults := fun _ => None; tick := 0;
     db := fun _ => [stale]; txn := None;
     next_session := 0; live_sessions := []; console := []; calls := [] |}.

(** [JSON.parse] that also knows the text of [null], and a directory
    whose one file holds it. *)
Definition parse_null (text : string) : JsError + JSON :=
  if String.eqb text "null" then inr JNull else parse text.

Definition null_files : FileSystem :=
  {| readdir := inr ["users.json"];
     stat_isFile := fun _ => inr true;
     readFile := fun path =>
       if String.eqb path "users.json" then inr "null" else inl enoent |}.

(** A directory with a fixture for each default name, and one file more. *)
Definition full_names : list string :=
  map (fun c => c ++ ".json")
      [ "users"; "organizations"; "posts"; "events"; "venue";
        "recurrenceRules"; "appUserProfiles"; "actionItemCategories";
        "agendaCategories"; "extras" ].

Definition full_files : FileSystem :=
  {| readdir := inr full_names;
     stat_isFile := fun _ => inr true;
     readFile := fun path =>
       if existsb (String.eqb path) full_names then inr events_text
       else inl enoent |}.

Definition full_world : World :=
  {| fs := full_files; faults := fun _ => None; tick := 0;
     db := fun _ => [stale]; txn := None;
     next_session := 0; live_sessions := []; console := []; calls := [] |}.

End Sample.

(* ===================================================================== *)
(** ** Vocabulary of the statements *)
(* ===================================================================== *)

(** A relation between the world before a step and the world after it
    that the step keeps. *)
Definition keeps (R : World -> World -> Prop) {A} (m : M A) : Prop :=
  forall w, R w (snd (m w)).

(** A step never leaves through [process.exit]. *)
Definition no_exit {A} (m : M A) : Prop :=
  forall w c, fst (m w) <> Exit c.

(** A step never throws to its caller. *)
Definition no_throw {A} (m : M A) : Prop :=
  forall w e, fst (m w) <> Throw e.

(** The files and the failures the world holds are never changed. *)
Definition same_env (w w' : World) : Prop :=
  fs w' = fs w /\ faults w' = faults w.

(** Collections outside [touched] hold what they held. *)
Definition db_outside (touched : Model -> bool) (w w' : World) : Prop :=
  forall m, touched m = false -> db w' m = db w m.

(** The empty set of collections: [db_outside nothing] says that no
    collection changes. *)
Definition nothing : Model -> bool := fun _ => false.

(** The open transaction is the same. *)
Definition same_txn (w w' : World) : Prop := txn w' = txn w.

(** The driver calls made are all of kind [P]. *)
Definition calls_only (P : Call -> Prop) (w w' : World) : Prop :=
  exists l, calls w' = (calls w ++ l)%list /\ Forall P l.

(** No round trip fails. *)
Definition quiet (w : World) : Prop := forall n, faults w n = None.

(** In a world where no round trip fails, the step returns a value. *)
Definition runs_ok {A} (m : M A) : Prop :=
  forall w, quiet w -> exists a w', m w = (Ok a, w').

(** A JSON value on which [docs.length] is [undefined] or cannot be read. *)
Definition lacks_length (docs : JSON) : Prop :=
  match docs with
  | JNull | JBool _ | JNumber _ => True
  | JObject members => own_property "length" members = None
  | JString _ | JArray _ => False
  end.

(** The order in which the reset empties the collections. *)
Definition reset_order : list Model :=
  [ Community; User; Organization; ActionItemCategory; AgendaCategoryModel;
    Event; Venue; RecurrenceRule; Post; AppUserProfile ].

(** The driver calls of a reset on session [s] in which nothing fails. *)
Definition reset_calls (s : SessionId) : list Call :=
  ([StartSession; BeginTransaction s]
   ++ map (fun m => DeleteMany m None) reset_order
   ++ [CommitTransaction s; EndSession s])%list.

(** The driver calls of a reset on session [s] that issues the first [k]
    deletions and then closes its transaction with [closing]. *)
Definition reset_trace (s : SessionId) (k : nat) (closing : list Call)
  : list Call :=
  (StartSession :: BeginTransaction s
   :: map (fun m => DeleteMany m None) (firstn k reset_order)
   ++ closing ++ [EndSession s])%list.

(** The driver calls of a count check in which nothing fails. *)
Definition count_calls : list Call :=
  Connect "talawa-api" :: map (fun e => CountDocuments (snd e)) count_collections.

(** Only the console differs. *)
Definition only_console (w w' : World) : Prop :=
  fs w' = fs w /\ faults w' = faults w /\ tick w' = tick w /\
  db w' = db w /\ txn w' = txn w /\ next_session w' = next_session w /\
  live_sessions w' = live_sessions w /\ calls w' = calls w.

(** The sessions are the same, and so is the next session identifier. *)
Definition same_sessions (w w' : World) : Prop :=
  live_sessions w' = live_sessions w /\ next_session w' = next_session w.

(** The sessions and the open transaction are the same. *)
Definition same_driver (w w' : World) : Prop :=
  live_sessions w' = live_sessions w /\ next_session w' = next_session w /\
  txn w' = txn w.

(** Session identifiers are handed out in increasing order: every live
    session is older than the next one. *)
Definition sessions_fresh (w : World) : Prop :=
  forall s, In s (live_sessions w) -> s < next_session w.

(** A call of the reset: anything but a bulk insert or a count. *)
Definition before_load (c : Call) : Prop :=
  match c with
  | InsertMany _ _ | CountDocuments _ => False
  | _ => True
  end.

(** A call the reset makes. *)
Definition reset_call (c : Call) : Prop :=
  match c with
  | StartSession | BeginTransaction _ | DeleteMany _ _ | CommitTransaction _
  | AbortTransaction _ | EndSession _ => True
  | _ => False
  end.

Definition not_a_count (c : Call) : Prop :=
  forall m, c <> CountDocuments m.

(** A call of the load loop or of the count check. *)
Definition after_reset (c : Call) : Prop :=
  match c with
  | InsertMany _ _ | CountDocuments _ | Connect _ => True
  | _ => False
  end.

Definition is_insert (c : Call) : Prop :=
  match c with InsertMany _ _ => True | _ => False end.

(* ===================================================================== *)
(** ** Reasoning about runs *)
(* ===================================================================== *)

(** *** Inversion of a successful sequence *)

Lemma bind_Ok {A B} (m : M A) (k : A -> M B) w b w' :
  bind m k w = (Ok b, w') ->
  exists a w1, m w = (Ok a, w1) /\ k a w1 = (Ok b, w').
Proof.
  unfold bind. destruct (m w) as [[a|e|c] w1]; intro H; try discriminate.
  exists a, w1. split; [reflexivity | exact H].
Qed.

Lemma bind_run {A B} (m : M A) (k : A -> M B) w a w1 :
  m w = (Ok a, w1) -> bind m k w = k a w1.
Proof. unfold bind. intros ->. reflexivity. Qed.

Lemma bind_Throw {A B} (m : M A) (k : A -> M B) w e w1 :
  m w = (Throw e, w1) -> bind m k w = (Throw e, w1).
Proof. unfold bind. intros ->. reflexivity. Qed.

Lemma await_Ok {A} (r : JsError + A) w a w' :
  await r w = (Ok a, w') -> r = inr a /\ w' = w.
Proof.
  destruct r as [e|x]; cbn; intro H; inversion H; subst; auto.
Qed.

Lemma try_catch_Ok {A} (body : M A) handler w a w' :
  try_catch body handler w = (Ok a, w') ->
  body w = (Ok a, w') \/
  exists e w1, body w = (Throw e, w1) /\ handler e w1 = (Ok a, w').
Proof.
  unfold try_catch. destruct (body w) as [[x|e|c] w1]; intro H.
  - left. exact H.
  - right. exists e, w1. split; [reflexivity | exact H].
  - discriminate.
Qed.

Lemma try_finally_Ok {A} (body : M A) cleanup w a w' :
  try_finally body cleanup w = (Ok a, w') ->
  exists w1 u, body w = (Ok a, w1) /\ cleanup w1 = (Ok u, w').
Proof.
  unfold try_finally. destruct (body w) as [[x|e|c] w1]; try discriminate;
    destruct (cleanup w1) as [[u|e'|c'] w2] eqn:E; intro H; try discriminate.
  inversion H; subst. exists w1, u. split; [reflexivity | exact E].
Qed.

Lemma for_of_cons {A} (x : A) rest body w :
  for_of (x :: rest) body w = bind (body x) (fun _ => for_of rest body) w.
Proof. reflexivity. Qed.

(** *** Relations every step keeps

    A property of the pair (world before, world after) that is reflexive
    and transitive is kept by a whole block as soon as each of its steps
    keeps it, whatever the block's control flow. *)

Section Frames.

Variable R : World -> World -> Prop.
Hypothesis R_refl : forall w, R w w.
Hypothesis R_trans : forall a b c, R a b -> R b c -> R a c.

Lemma keeps_ret {A} (a : A) : keeps R (ret a).
Proof. intro w. apply R_refl. Qed.

Lemma keeps_throw {A} (e : JsError) : keeps R (@throw A e).
Proof. intro w. apply R_refl. Qed.

Lemma keeps_await {A} (r : JsError + A) : keeps R (await r).
Proof. destruct r; [apply keeps_throw | apply keeps_ret]. Qed.

Lemma keeps_process_exit c : keeps R (process_exit c).
Proof. intro w. apply R_refl. Qed.

Lemma keeps_bind {A B} (m : M A) (k : A -> M B) :
  keeps R m -> (forall a, keeps R (k a)) -> keeps R (bind m k).
Proof.
  intros Hm Hk w. unfold bind. specialize (Hm w).
  destruct (m w) as [[a|e|c] w1]; cbn in *; auto.
  eapply R_trans; [exact Hm | apply Hk].
Qed.

Lemma keeps_try_catch {A} (body : M A) handler :
  keeps R body -> (forall e, keeps R (handler e)) -> keeps R (try_catch body handler).
Proof.
  intros Hb Hh w. unfold try_catch. specialize (Hb w).
  destruct (body w) as [[a|e|c] w1]; cbn in *; auto.
  eapply R_trans; [exact Hb | apply Hh].
Qed.

Lemma keeps_try_finally {A} (body : M A) cleanup :
  keeps R body -> keeps R cleanup -> keeps R (try_finally body cleanup).
Proof.
  intros Hb Hc w. unfold try_finally. specialize (Hb w).
  destruct (body w) as [[a|e|c] w1]; cbn in *; auto;
    specialize (Hc w1); destruct (cleanup w1) as [[u|e'|c'] w2]; cbn in *;
    eapply R_trans; eauto.
Qed.

Lemma keeps_for_of {A} (xs : list A) body :
  (forall x, keeps R (body x)) -> keeps R (for_of xs body).
Proof.
  intro Hb. induction xs as [|x rest IH]; cbn.
  - apply keeps_ret.
  - apply keeps_bind; auto.
Qed.

Lemma keeps_for_of_in {A} (xs : list A) body :
  (forall x, In x xs -> keeps R (body x)) -> keeps R (for_of xs body).
Proof.
  induction xs as [|x rest IH]; intro Hb; cbn.
  - apply keeps_ret.
  - apply keeps_bind.
    + apply Hb. left. reflexivity.
    + intros _. apply IH. intros y Hy. apply Hb. right. exact Hy.
Qed.

End Frames.

Lemma no_exit_ret {A} (a : A) : no_exit (ret a).
Proof. intros w c; cbn; discriminate. Qed.

Lemma no_exit_throw {A} e : no_exit (@throw A e).
Proof. intros w c; cbn; discriminate. Qed.

Lemma no_exit_await {A} (r : JsError + A) : no_exit (await r).
Proof. destruct r; [apply no_exit_throw | apply no_exit_ret]. Qed.

Lemma no_exit_bind {A B} (m : M A) (k : A -> M B) :
  no_exit m -> (forall a, no_exit (k a)) -> no_exit (bind m k).
Proof.
  intros Hm Hk w c. unfold bind. specialize (Hm w).
  destruct (m w) as [[a|e|c'] w1]; cbn in *.
  - apply Hk.
  - discriminate.
  - exfalso. apply (Hm c'). reflexivity.
Qed.

Lemma no_exit_try_catch {A} (body : M A) handler :
  no_exit body -> (forall e, no_exit (handler e)) ->
  no_exit (try_catch body handler).
Proof.
  intros Hb Hh w c. unfold try_catch. specialize (Hb w).
  destruct (body w) as [[a|e|c'] w1]; cbn in *.
  - discriminate.
  - apply Hh.
  - exfalso. apply (Hb c'). reflexivity.
Qed.

Lemma no_exit_try_finally {A} (body : M A) cleanup :
  no_exit body -> no_exit cleanup -> no_exit (try_finally body cleanup).
Proof.
  intros Hb Hc w c. unfold try_finally. specialize (Hb w).
  destruct (body w) as [[a|e|c'] w1]; cbn in *;
    try (exfalso; apply (Hb c'); reflexivity);
    specialize (Hc w1); destruct (cleanup w1) as [[u|e'|c''] w2]; cbn in *;
    try discriminate; exfalso; apply (Hc c''); reflexivity.
Qed.

Lemma no_exit_for_of {A} (xs : list A) body :
  (forall x, no_exit (body x)) -> no_exit (for_of xs body).
Proof.
  intro Hb. induction xs as [|x rest IH]; cbn.
  - apply no_exit_ret.
  - apply no_exit_bind; auto.
Qed.

Lemma no_throw_handled {A} (body : M A) handler :
  (forall e, no_throw (handler e)) -> no_throw (try_catch body handler).
Proof.
  intros Hh w e. unfold try_catch.
  destruct (body w) as [[a|e'|c] w1]; cbn; try discriminate.
  apply Hh.
Qed.

Lemma same_env_refl w : same_env w w.
Proof. split; reflexivity. Qed.

Lemma same_env_trans a b c : same_env a b -> same_env b c -> same_env a c.
Proof. unfold same_env. intros [? ?] [? ?]. split; congruence. Qed.

Lemma db_outside_refl t w : db_outside t w w.
Proof. intros m _. reflexivity. Qed.

Lemma db_outside_trans t a b c :
  db_outside t a b -> db_outside t b c -> db_outside t a c.
Proof. intros H1 H2 m Hm. rewrite (H2 m Hm). apply (H1 m Hm). Qed.

Lemma same_txn_refl w : same_txn w w.
Proof. reflexivity. Qed.

Lemma same_txn_trans a b c : same_txn a b -> same_txn b c -> same_txn a c.
Proof. unfold same_txn. congruence. Qed.

Lemma calls_only_refl P w : calls_only P w w.
Proof. exists []. split; [symmetry; apply app_nil_r | constructor]. Qed.

Lemma calls_only_trans P a b c :
  calls_only P a b -> calls_only P b c -> calls_only P a c.
Proof.
  intros [l1 [E1 F1]] [l2 [E2 F2]]. exists (l1 ++ l2)%list. split.
  - rewrite E2, E1. symmetry. apply app_assoc.
  - apply Forall_app. split; assumption.
Qed.

Lemma calls_only_same P w w' : calls w' = calls w -> calls_only P w w'.
Proof.
  intro E. exists []. split; [rewrite E; symmetry; apply app_nil_r | constructor].
Qed.

Lemma calls_only_one P c w w' :
  calls w' = (calls w ++ [c])%list -> P c -> calls_only P w w'.
Proof. intros E Hc. exists [c]. split; [exact E | repeat constructor; exact Hc]. Qed.

Create HintDb frame.

#[export] Hint Resolve same_env_refl same_env_trans db_outside_refl
  db_outside_trans same_txn_refl same_txn_trans calls_only_refl
  calls_only_trans : frame.

(** Splits a block into its steps. *)
Ltac frame :=
  repeat first
    [ match goal with |- forall _, _ => intro end
    | solve [eauto 6 with frame]
    | apply keeps_for_of | apply no_exit_for_of
    | apply keeps_bind | apply keeps_try_catch | apply keeps_try_finally
    | apply keeps_ret | apply keeps_throw
    | apply keeps_await | apply keeps_process_exit
    | apply no_exit_bind | apply no_exit_try_catch | apply no_exit_try_finally
    | apply no_exit_ret | apply no_exit_throw
    | apply no_exit_await
    | match goal with
      | |- keeps _ (match ?x with _ => _ end) => destruct x
      | |- no_exit (match ?x with _ => _ end) => destruct x
      | |- keeps _ (if ?x then _ else _) => destruct x
      | |- no_exit (if ?x then _ else _) => destruct x
      end ].

(** *** Console and filesystem steps *)

Lemma console_log_env s : keeps same_env (console_log s).
Proof. intro w. split; reflexivity. Qed.

Lemma console_error_env s e : keeps same_env (console_error s e).
Proof. intro w. split; reflexivity. Qed.

Lemma console_log_db t s : keeps (db_outside t) (console_log s).
Proof. intros w m _. reflexivity. Qed.

Lemma console_error_db t s e : keeps (db_outside t) (console_error s e).
Proof. intros w m _. reflexivity. Qed.

Lemma console_log_txn s : keeps same_txn (console_log s).
Proof. intro w. reflexivity. Qed.

Lemma console_log_calls P s : keeps (calls_only P) (console_log s).
Proof. intro w. apply calls_only_same. reflexivity. Qed.

Lemma console_error_calls P s e : keeps (calls_only P) (console_error s e).
Proof. intro w. apply calls_only_same. reflexivity. Qed.

Lemma console_log_no_exit s : no_exit (console_log s).
Proof. intros w c. cbn. discriminate. Qed.

Lemma console_error_no_exit s e : no_exit (console_error s e).
Proof. intros w c. cbn. discriminate. Qed.

Lemma console_error_no_throw s e : no_throw (console_error s e).
Proof. intros w c. cbn. discriminate. Qed.

Lemma fs_readdir_keeps R :
  (forall w, R w w) -> keeps R fs_readdir.
Proof. intros Hr w. unfold fs_readdir. destruct (readdir (fs w)); apply Hr. Qed.

Lemma fs_stat_isFile_keeps R p :
  (forall w, R w w) -> keeps R (fs_stat_isFile p).
Proof.
  intros Hr w. unfold fs_stat_isFile. destruct (stat_isFile (fs w) p); apply Hr.
Qed.

Lemma fs_readFile_keeps R p :
  (forall w, R w w) -> keeps R (fs_readFile p).
Proof.
  intros Hr w. unfold fs_readFile. destruct (readFile (fs w) p); apply Hr.
Qed.

Lemma fs_readdir_no_exit : no_exit fs_readdir.
Proof. intros w c. unfold fs_readdir. destruct (readdir (fs w)); discriminate. Qed.

Lemma fs_stat_isFile_no_exit p : no_exit (fs_stat_isFile p).
Proof.
  intros w c. unfold fs_stat_isFile.
  destruct (stat_isFile (fs w) p); discriminate.
Qed.

Lemma fs_readFile_no_exit p : no_exit (fs_readFile p).
Proof.
  intros w c. unfold fs_readFile. destruct (readFile (fs w) p); discriminate.
Qed.

#[export] Hint Resolve console_log_env console_error_env console_log_db
  console_error_db console_log_txn console_log_calls console_error_calls
  console_log_no_exit console_error_no_exit fs_readdir_keeps
  fs_stat_isFile_keeps fs_readFile_keeps fs_readdir_no_exit
  fs_stat_isFile_no_exit fs_readFile_no_exit : frame.

(** *** Driver steps *)

Ltac atom :=
  let w := fresh "w" in
  intro w; cbn;
  repeat match goal with
         | |- context [match ?x with _ => _ end] => destruct x; cbn
         end.

Lemma round_trip_env c : keeps same_env (round_trip c).
Proof. intro w. split; reflexivity. Qed.

Lemma round_trip_db t c : keeps (db_outside t) (round_trip c).
Proof. intros w m _. reflexivity. Qed.

Lemma round_trip_txn c : keeps same_txn (round_trip c).
Proof. intro w. reflexivity. Qed.

Lemma round_trip_calls (P : Call -> Prop) c :
  P c -> keeps (calls_only P) (round_trip c).
Proof. intros Hc w. eapply calls_only_one; [reflexivity | exact Hc]. Qed.

Lemma round_trip_no_exit c : no_exit (round_trip c).
Proof. intros w x. cbn. discriminate. Qed.

Lemma local_call_env c : keeps same_env (local_call c).
Proof. intro w. split; reflexivity. Qed.

Lemma local_call_db t c : keeps (db_outside t) (local_call c).
Proof. intros w m _. reflexivity. Qed.

Lemma local_call_calls (P : Call -> Prop) c :
  P c -> keeps (calls_only P) (local_call c).
Proof. intros Hc w. eapply calls_only_one; [reflexivity | exact Hc]. Qed.

Lemma local_call_no_exit c : no_exit (local_call c).
Proof. intros w x. cbn. discriminate. Qed.

#[export] Hint Resolve round_trip_env round_trip_db round_trip_txn
  round_trip_calls round_trip_no_exit local_call_env local_call_db
  local_call_calls local_call_no_exit : frame.

Lemma connect_env n : keeps same_env (connect n).
Proof. unfold connect. frame. Qed.

Lemma connect_db t n : keeps (db_outside t) (connect n).
Proof. unfold connect. frame. Qed.

Lemma connect_calls (P : Call -> Prop) n :
  P (Connect n) -> keeps (calls_only P) (connect n).
Proof. intro Hc. unfold connect. frame. Qed.

Lemma connect_no_exit n : no_exit (connect n).
Proof. unfold connect. frame. Qed.

Lemma startSession_env : keeps same_env startSession.
Proof. unfold startSession. frame. atom. split; reflexivity. Qed.

Lemma startSession_db t : keeps (db_outside t) startSession.
Proof. unfold startSession. frame. atom. intros m _. reflexivity. Qed.

Lemma startSession_calls (P : Call -> Prop) :
  P StartSession -> keeps (calls_only P) startSession.
Proof.
  intro Hc. unfold startSession. frame. atom. apply calls_only_same. reflexivity.
Qed.

Lemma startSession_no_exit : no_exit startSession.
Proof. unfold startSession. frame. intros w c. cbn. discriminate. Qed.

Lemma endSession_env s : keeps same_env (endSession s).
Proof. unfold endSession. frame. atom; split; reflexivity. Qed.

Lemma endSession_db t s : keeps (db_outside t) (endSession s).
Proof. unfold endSession. frame. atom; intros m _; reflexivity. Qed.

Lemma endSession_calls (P : Call -> Prop) s :
  P (EndSession s) -> keeps (calls_only P) (endSession s).
Proof.
  intro Hc. unfold endSession. frame. atom; apply calls_only_same; reflexivity.
Qed.

Lemma endSession_no_exit s : no_exit (endSession s).
Proof. unfold endSession. frame. Qed.

Lemma endSession_Ok s w :
  fst (endSession s w) = Ok tt /\
  ~ In s (live_sessions (snd (endSession s w))).
Proof.
  unfold endSession, bind, local_call. cbn. split; [reflexivity|].
  destruct (owns s (txn w)); cbn; apply remove_In.
Qed.

Lemma deleteMany_env m o : keeps same_env (deleteMany m o).
Proof.
  unfold deleteMany, delete_now. frame. atom; split; reflexivity.
Qed.

Lemma deleteMany_calls (P : Call -> Prop) m o :
  P (DeleteMany m o) -> keeps (calls_only P) (deleteMany m o).
Proof.
  intro Hc. unfold deleteMany, delete_now. frame.
  atom; apply calls_only_same; reflexivity.
Qed.

Lemma deleteMany_no_exit m o : no_exit (deleteMany m o).
Proof.
  unfold deleteMany, delete_now. frame. intros w c.
  destruct o as [s|]; [destruct (txn w) as [[s' p]|]; [destruct (Nat.eqb s s')|]|];
    destruct a; cbn; discriminate.
Qed.

Lemma deleteMany_txn m : keeps same_txn (deleteMany m None).
Proof.
  unfold deleteMany, delete_now. frame. intro w. destruct a; reflexivity.
Qed.

Lemma countDocuments_env m : keeps same_env (countDocuments m).
Proof. unfold countDocuments. frame. intro w. split; reflexivity. Qed.

Lemma countDocuments_db t m : keeps (db_outside t) (countDocuments m).
Proof. unfold countDocuments. frame. intros w x _. reflexivity. Qed.

Lemma countDocuments_calls (P : Call -> Prop) m :
  P (CountDocuments m) -> keeps (calls_only P) (countDocuments m).
Proof.
  intro Hc. unfold countDocuments. frame. intro w. apply calls_only_same.
  reflexivity.
Qed.

Lemma countDocuments_no_exit m : no_exit (countDocuments m).
Proof. unfold countDocuments. frame. intros w c. cbn. discriminate. Qed.

Lemma withTransaction_env s cb :
  keeps same_env cb -> keeps same_env (withTransaction s cb).
Proof.
  intro H. unfold withTransaction. frame; intro w; split; reflexivity.
Qed.

Lemma withTransaction_calls (P : Call -> Prop) s cb :
  P (BeginTransaction s) -> P (CommitTransaction s) -> P (AbortTransaction s) ->
  keeps (calls_only P) cb -> keeps (calls_only P) (withTransaction s cb).
Proof.
  intros H1 H2 H3 H. unfold withTransaction.
  frame; intro w; apply calls_only_same; reflexivity.
Qed.

Lemma withTransaction_no_exit s cb :
  no_exit cb -> no_exit (withTransaction s cb).
Proof.
  intro H. unfold withTransaction. frame; intros w c; cbn; discriminate.
Qed.

#[export] Hint Resolve connect_env connect_db connect_calls connect_no_exit
  startSession_env startSession_db startSession_calls startSession_no_exit
  endSession_env endSession_db endSession_calls endSession_no_exit
  deleteMany_env deleteMany_calls deleteMany_no_exit deleteMany_txn
  countDocuments_env countDocuments_db countDocuments_calls
  countDocuments_no_exit withTransaction_env withTransaction_calls
  withTransaction_no_exit : frame.

(* ===================================================================== *)
(** ** Facts about the script's functions *)
(* ===================================================================== *)

Section LoaderFacts.

Variable JSON_parse : string -> JsError + JSON.
Variable hydrate : Model -> JSON -> JSON.

(** *** [insertMany] *)

Lemma insertMany_env m d : keeps same_env (insertMany hydrate m d).
Proof.
  unfold insertMany. frame. intro w. destruct a; split; reflexivity.
Qed.

Lemma insertMany_db (t : Model -> bool) m d :
  t m = true -> keeps (db_outside t) (insertMany hydrate m d).
Proof.
  intro Ht. unfold insertMany. frame. intros w m' Hm'.
  assert (m <> m') by congruence.
  destruct a; cbn; unfold put; destruct (Model_eq_dec m m'); congruence.
Qed.

Lemma insertMany_calls (P : Call -> Prop) m d :
  P (InsertMany m d) -> keeps (calls_only P) (insertMany hydrate m d).
Proof.
  intro Hc. unfold insertMany. frame. intro w.
  destruct a; apply calls_only_same; reflexivity.
Qed.

Lemma insertMany_no_exit m d : no_exit (insertMany hydrate m d).
Proof.
  unfold insertMany. frame. intros w c. destruct a; cbn; discriminate.
Qed.

Lemma insertMany_Ok m d w w' :
  insertMany hydrate m d w = (Ok tt, w') ->
  db w' m = (db w m ++ map (hydrate m) (docs_of d))%list.
Proof.
  unfold insertMany, bind, round_trip.
  destruct (faults w (tick w)); cbn; intro H; inversion H; subst; cbn.
  unfold put. destruct (Model_eq_dec m m); congruence.
Qed.

Lemma insertMany_other m d w o w' :
  insertMany hydrate m d w = (o, w') -> forall m', m <> m' -> db w' m' = db w m'.
Proof.
  unfold insertMany, bind, round_trip.
  destruct (faults w (tick w)); cbn; intros H m' Hne; inversion H; subst; cbn;
    unfold put; destruct (Model_eq_dec m m'); congruence.
Qed.

(** *** [listSampleData] *)

Lemma listSampleData_no_exit : no_exit (listSampleData JSON_parse).
Proof. unfold listSampleData, list_one. frame. Qed.

Lemma listSampleData_no_throw : no_throw (listSampleData JSON_parse).
Proof.
  unfold listSampleData. apply no_throw_handled.
  intro e. apply console_error_no_throw.
Qed.

Lemma listSampleData_Ok w : fst (listSampleData JSON_parse w) = Ok tt.
Proof.
  pose proof (listSampleData_no_exit w) as Hx.
  pose proof (listSampleData_no_throw w) as Ht.
  destruct (fst (listSampleData JSON_parse w)) as [[]|e|c].
  - reflexivity.
  - exfalso. apply (Ht e). reflexivity.
  - exfalso. apply (Hx c). reflexivity.
Qed.

Lemma listSampleData_env : keeps same_env (listSampleData JSON_parse).
Proof. unfold listSampleData, list_one. frame. Qed.

Lemma listSampleData_db t : keeps (db_outside t) (listSampleData JSON_parse).
Proof. unfold listSampleData, list_one. frame. Qed.

Lemma listSampleData_calls P : keeps (calls_only P) (listSampleData JSON_parse).
Proof. unfold listSampleData, list_one. frame. Qed.

(** *** [checkCountAfterImport] *)

Lemma checkCountAfterImport_no_exit : no_exit checkCountAfterImport.
Proof. unfold checkCountAfterImport, count_one. frame. Qed.

Lemma checkCountAfterImport_no_throw : no_throw checkCountAfterImport.
Proof.
  unfold checkCountAfterImport. apply no_throw_handled.
  intro e. apply console_error_no_throw.
Qed.

Lemma checkCountAfterImport_Ok w : fst (checkCountAfterImport w) = Ok tt.
Proof.
  pose proof (checkCountAfterImport_no_exit w) as Hx.
  pose proof (checkCountAfterImport_no_throw w) as Ht.
  destruct (fst (checkCountAfterImport w)) as [[]|e|c].
  - reflexivity.
  - exfalso. apply (Ht e). reflexivity.
  - exfalso. apply (Hx c). reflexivity.
Qed.

Lemma checkCountAfterImport_env : keeps same_env checkCountAfterImport.
Proof. unfold checkCountAfterImport, count_one. frame. Qed.

Lemma checkCountAfterImport_db t : keeps (db_outside t) checkCountAfterImport.
Proof. unfold checkCountAfterImport, count_one. frame. Qed.

Lemma checkCountAfterImport_calls (P : Call -> Prop) :
  (forall c, ~ is_insert c -> P c) ->
  keeps (calls_only P) checkCountAfterImport.
Proof.
  intro HP. unfold checkCountAfterImport, count_one.
  frame; apply HP; cbn; auto.
Qed.

(** *** [resetDatabase] *)

Lemma resetDatabase_callback_env : keeps same_env resetDatabase_callback.
Proof. unfold resetDatabase_callback. frame. Qed.

Lemma resetDatabase_callback_no_exit : no_exit resetDatabase_callback.
Proof. unfold resetDatabase_callback. frame. Qed.

Lemma resetDatabase_callback_txn : keeps same_txn resetDatabase_callback.
Proof. unfold resetDatabase_callback. frame. Qed.

Lemma resetDatabase_env : keeps same_env resetDatabase.
Proof.
  pose proof resetDatabase_callback_env.
  unfold resetDatabase. frame.
Qed.

Lemma resetDatabase_no_exit : no_exit resetDatabase.
Proof.
  pose proof resetDatabase_callback_no_exit.
  unfold resetDatabase. frame.
Qed.

Lemma resetDatabase_calls (P : Call -> Prop) :
  (forall c, ~ is_insert c -> P c) -> keeps (calls_only P) resetDatabase.
Proof.
  intro HP.
  assert (keeps (calls_only P) resetDatabase_callback).
  { unfold resetDatabase_callback. frame; apply HP; cbn; auto. }
  assert (forall s, keeps (calls_only P) (withTransaction s resetDatabase_callback)).
  { intro s. apply withTransaction_calls; try (apply HP; cbn; auto); assumption. }
  unfold resetDatabase. frame.
Qed.

(** A reset that returns has emptied all ten collections. *)

Lemma deleteMany_None_Ok m w u w' :
  deleteMany m None w = (Ok u, w') -> db w' = put m [] (db w).
Proof.
  unfold deleteMany, delete_now, bind, round_trip.
  destruct (faults w (tick w)); cbn; intro H; inversion H; subst; reflexivity.
Qed.

Lemma resetDatabase_callback_Ok w w' :
  resetDatabase_callback w = (Ok tt, w') ->
  (forall m, db w' m = []) /\ txn w' = txn w.
Proof.
  intro H. split.
  - unfold resetDatabase_callback in H.
    repeat match type of H with
           | bind (deleteMany _ None) _ _ = _ =>
               let a := fresh "a" in
               let w1 := fresh "w" in
               let E := fresh "E" in
               apply bind_Ok in H; destruct H as [a [w1 [E H]]];
               apply deleteMany_None_Ok in E
           end.
    apply deleteMany_None_Ok in H.
    intro m. rewrite H, E7, E6, E5, E4, E3, E2, E1, E0, E.
    destruct m; reflexivity.
  - pose proof (resetDatabase_callback_txn w) as K. rewrite H in K. exact K.
Qed.

Lemma withTransaction_Ok s cb w w' :
  withTransaction s cb w = (Ok tt, w') ->
  exists w0 w1,
    txn w0 = Some (s, []) /\ db w0 = db w /\ cb w0 = (Ok tt, w1) /\
    db w' = apply_pending (pending_of (txn w1)) (db w1).
Proof.
  unfold withTransaction. intro H.
  apply bind_Ok in H. destruct H as [[] [w1 [E1 H]]].
  apply bind_Ok in H. destruct H as [[] [w2 [E2 H]]].
  inversion E1; subst; clear E1. inversion E2; subst; clear E2.
  apply try_catch_Ok in H. destruct H as [H | [e [w3 [_ H]]]].
  - apply bind_Ok in H. destruct H as [[] [w3 [E3 H]]].
    apply bind_Ok in H. destruct H as [f [w4 [E4 H]]].
    inversion E4; subst; clear E4.
    destruct (faults w3 (tick w3)); [discriminate|].
    inversion H; subst; clear H.
    exists (set_txn (Some (s, []))
              (set_calls (calls w ++ [BeginTransaction s]) w)), w3.
    repeat split. exact E3.
  - unfold bind, local_call, throw in H. cbn in H. discriminate.
Qed.

Lemma resetDatabase_Ok w w' :
  resetDatabase w = (Ok tt, w') -> forall m, db w' m = [].
Proof.
  unfold resetDatabase. intros H m.
  apply bind_Ok in H. destruct H as [s [w1 [_ H]]].
  apply try_finally_Ok in H. destruct H as [w2 [u [H Hend]]].
  apply try_catch_Ok in H. destruct H as [H | [e [w3 [_ H]]]].
  - apply bind_Ok in H. destruct H as [[] [w3 [Htx Hlog]]].
    apply withTransaction_Ok in Htx.
    destruct Htx as [w0 [w4 [T0 [_ [Hcb Hdb]]]]].
    apply resetDatabase_callback_Ok in Hcb. destruct Hcb as [Hempty Htxn].
    rewrite Htxn, T0 in Hdb. cbn in Hdb.
    pose proof (endSession_db nothing s w2 m eq_refl) as K1.
    rewrite Hend in K1. cbn in K1. rewrite K1.
    pose proof (console_log_db nothing "Database reset completed." w3 m eq_refl)
      as K2.
    rewrite Hlog in K2. cbn in K2. rewrite K2, Hdb. apply Hempty.
  - unfold bind, console_error, throw in H. cbn in H. discriminate.
Qed.

(** *** The load loop *)

Lemma insert_switch_table collection docs :
  insert_switch hydrate collection docs =
  match model_of collection with
  | Some m => insertMany hydrate m docs
  | None =>
      console_log (Js.two_args Js.red ("Invalid collection name: " ++ collection))
  end.
Proof.
  unfold insert_switch, model_of.
  repeat match goal with
         | |- context [String.eqb ?a ?b] => destruct (String.eqb a b)
         end; reflexivity.
Qed.

Lemma insert_switch_env c d : keeps same_env (insert_switch hydrate c d).
Proof.
  rewrite insert_switch_table. destruct (model_of c).
  - apply insertMany_env.
  - apply console_log_env.
Qed.

Lemma insert_switch_no_exit c d : no_exit (insert_switch hydrate c d).
Proof.
  rewrite insert_switch_table. destruct (model_of c).
  - apply insertMany_no_exit.
  - apply console_log_no_exit.
Qed.

(** The switch inserts into the selected model or into none. *)
Lemma insert_switch_db (t : Model -> bool) c d :
  (forall m, model_of c = Some m -> t m = true) ->
  keeps (db_outside t) (insert_switch hydrate c d).
Proof.
  intro Ht. rewrite insert_switch_table. destruct (model_of c) as [m|].
  - apply insertMany_db. apply Ht. reflexivity.
  - apply console_log_db.
Qed.

Lemma insert_switch_calls (P : Call -> Prop) c d :
  (forall m, model_of c = Some m -> P (InsertMany m d)) ->
  keeps (calls_only P) (insert_switch hydrate c d).
Proof.
  intro HP. rewrite insert_switch_table. destruct (model_of c) as [m|].
  - apply insertMany_calls. apply HP. reflexivity.
  - apply console_log_calls.
Qed.

Lemma insert_one_env c : keeps same_env (insert_one JSON_parse hydrate c).
Proof. pose proof insert_switch_env. unfold insert_one. frame. Qed.

Lemma insert_one_no_exit c : no_exit (insert_one JSON_parse hydrate c).
Proof. pose proof insert_switch_no_exit. unfold insert_one. frame. Qed.

Lemma insert_one_db (t : Model -> bool) c :
  (forall m, model_of c = Some m -> t m = true) ->
  keeps (db_outside t) (insert_one JSON_parse hydrate c).
Proof.
  intro Ht. pose proof (fun d => insert_switch_db t c d Ht).
  unfold insert_one. frame.
Qed.

Lemma insert_one_calls (P : Call -> Prop) c :
  (forall m d, model_of c = Some m -> P (InsertMany m d)) ->
  keeps (calls_only P) (insert_one JSON_parse hydrate c).
Proof.
  intro HP.
  assert (forall d, keeps (calls_only P) (insert_switch hydrate c d)).
  { intro d. apply insert_switch_calls. intros m. apply HP. }
  unfold insert_one. frame.
Qed.

(** The model a name selects is never [Community]. *)
Lemma model_of_not_Community c : model_of c <> Some Community.
Proof.
  unfold model_of.
  repeat match goal with
         | |- context [String.eqb ?a ?b] => destruct (String.eqb a b)
         end; discriminate.
Qed.

(** Two names that select the same model are the same name. *)
Lemma model_of_inj c1 c2 m :
  model_of c1 = Some m -> model_of c2 = Some m -> c1 = c2.
Proof.
  unfold model_of.
  repeat match goal with
         | |- context [String.eqb c1 ?b] => destruct (String.eqb_spec c1 b)
         end;
  repeat match goal with
         | |- context [String.eqb c2 ?b] => destruct (String.eqb_spec c2 b)
         end;
  intros H1 H2; rewrite <- H1 in H2; try discriminate; congruence.
Qed.

(** One successful turn of the loop: the files are as they were and the
    selected collection has gained the fixture's documents. *)
Lemma insert_one_Ok c w w' :
  insert_one JSON_parse hydrate c w = (Ok tt, w') ->
  exists docs,
    fixture JSON_parse (fs w) c = Some docs /\
    forall m, db w' m = (db w m ++ additions JSON_parse hydrate (fs w) m c)%list.
Proof.
  unfold insert_one. intro H.
  apply bind_Ok in H. destruct H as [data [w1 [E1 H]]].
  unfold fs_readFile in E1. apply await_Ok in E1. destruct E1 as [E1 ->].
  apply bind_Ok in H. destruct H as [docs [w2 [E2 H]]].
  apply await_Ok in E2. destruct E2 as [E2 ->].
  apply bind_Ok in H. destruct H as [[] [w3 [E3 H]]].
  exists docs. split.
  { unfold fixture. rewrite E1, E2. reflexivity. }
  intro m.
  assert (Hlog : db w' m = db w3 m).
  { pose proof (console_log_db nothing
      (Js.two_args Js.magenta ("Added " ++ c ++ " collection")) w3 m eq_refl) as K.
    rewrite H in K. exact K. }
  rewrite Hlog. unfold additions, fixture. rewrite E1, E2.
  rewrite insert_switch_table in E3.
  destruct (model_of c) as [m'|].
  - destruct (Model_eq_dec m' m) as [->|Hne].
    + apply (insertMany_Ok _ _ _ _ E3).
    + rewrite app_nil_r. apply (insertMany_other _ _ _ _ _ E3 m Hne).
  - rewrite app_nil_r. inversion E3; subst. reflexivity.
Qed.

Lemma for_of_insert_Ok names : forall w w',
  for_of names (insert_one JSON_parse hydrate) w = (Ok tt, w') ->
  fs w' = fs w /\
  (forall c, In c names -> exists docs, fixture JSON_parse (fs w) c = Some docs) /\
  forall m, db w' m = (db w m ++ loaded JSON_parse hydrate (fs w) m names)%list.
Proof.
  induction names as [|c rest IH]; intros w w' H.
  - inversion H; subst. repeat split.
    + intros c [].
    + intro m. cbn. symmetry. apply app_nil_r.
  - rewrite for_of_cons in H. apply bind_Ok in H.
    destruct H as [[] [w1 [E1 H]]].
    pose proof (insert_one_env c w) as [Hfs _]. rewrite E1 in Hfs. cbn in Hfs.
    apply insert_one_Ok in E1. destruct E1 as [docs [Hfix Hdb]].
    apply IH in H. destruct H as [Hfs' [Hall Hdb']]. rewrite Hfs in *.
    repeat split.
    + exact Hfs'.
    + intros c' [<-|Hin]; [exists docs; exact Hfix | apply Hall; exact Hin].
    + intro m. rewrite Hdb', Hdb. cbn. unfold loaded. symmetry. apply app_assoc.
Qed.

(** *** [insertCollections] and the entry point *)

Lemma insertCollections_try_no_exit names :
  no_exit (insertCollections_try JSON_parse hydrate names).
Proof.
  pose proof resetDatabase_no_exit. pose proof insert_one_no_exit.
  pose proof checkCountAfterImport_no_exit.
  unfold insertCollections_try. frame.
Qed.

Lemma insertCollections_try_env names :
  keeps same_env (insertCollections_try JSON_parse hydrate names).
Proof.
  pose proof resetDatabase_env. pose proof insert_one_env.
  pose proof checkCountAfterImport_env.
  unfold insertCollections_try. frame.
Qed.

Lemma insertCollections_env names :
  keeps same_env (insertCollections JSON_parse hydrate names).
Proof.
  pose proof insertCollections_try_env. unfold insertCollections. frame.
Qed.

Lemma main_selection argv w :
  main JSON_parse hydrate argv w =
  bind (listSampleData JSON_parse)
       (fun _ => insertCollections JSON_parse hydrate (selection argv)) w.
Proof. destruct argv as [[|c r]|]; reflexivity. Qed.

Lemma main_env argv : keeps same_env (main JSON_parse hydrate argv).
Proof.
  intro w. rewrite main_selection.
  revert w. fold (keeps same_env
    (bind (listSampleData JSON_parse)
       (fun _ => insertCollections JSON_parse hydrate (selection argv)))).
  pose proof listSampleData_env. pose proof insertCollections_env. frame.
Qed.

(** The [finally] block ends every call of [insertCollections]. *)
Lemma insertCollections_exit names w :
  fst (insertCollections JSON_parse hydrate names w) = Exit 0.
Proof.
  unfold insertCollections, try_finally, try_catch.
  pose proof (insertCollections_try_no_exit names w) as Hx.
  destruct (insertCollections_try JSON_parse hydrate names w) as [[[]|e|c] w1];
    cbn in *.
  - reflexivity.
  - reflexivity.
  - exfalso. apply (Hx c). reflexivity.
Qed.

Lemma insertCollections_after_try names w w1 :
  insertCollections_try JSON_parse hydrate names w = (Ok tt, w1) ->
  insertCollections JSON_parse hydrate names w = (Exit 0, w1).
Proof.
  intro H. unfold insertCollections, try_finally, try_catch. rewrite H.
  reflexivity.
Qed.

(** A [try] block that completes leaves the fixtures of the listed names,
    and nothing else, in the store. *)
Lemma insertCollections_try_Ok names w w' :
  insertCollections_try JSON_parse hydrate names w = (Ok tt, w') ->
  fs w' = fs w /\
  (forall c, In c names -> exists docs, fixture JSON_parse (fs w) c = Some docs) /\
  forall m, db w' m = loaded JSON_parse hydrate (fs w) m names.
Proof.
  intro H.
  pose proof (insertCollections_try_env names w) as [Hfs _].
  rewrite H in Hfs. cbn in Hfs.
  unfold insertCollections_try in H.
  apply bind_Ok in H. destruct H as [[] [w1 [E1 H]]].
  apply bind_Ok in H. destruct H as [[] [w2 [E2 H]]].
  apply bind_Ok in H. destruct H as [[] [w3 [E3 H]]].
  apply bind_Ok in H. destruct H as [[] [w4 [E4 H]]].
  pose proof (connect_env "talawa-api" w) as [F1 _]. rewrite E1 in F1.
  pose proof (resetDatabase_env w1) as [F2 _]. rewrite E2 in F2. cbn in F1, F2.
  pose proof (resetDatabase_Ok _ _ E2) as Hempty.
  apply for_of_insert_Ok in E3. destruct E3 as [_ [Hall Hdb]].
  rewrite F2, F1 in Hall, Hdb.
  split; [exact Hfs|]. split; [exact Hall|].
  intro m.
  pose proof (console_log_db nothing (Js.nl ++ "Collections added successfully")
                w4 m eq_refl) as K5.
  rewrite H in K5. cbn in K5.
  pose proof (checkCountAfterImport_db nothing w3 m eq_refl) as K4.
  rewrite E4 in K4. cbn in K4.
  rewrite K5, K4, Hdb, Hempty. reflexivity.
Qed.

Lemma main_db_loaded argv w :
  load_succeeds JSON_parse hydrate argv w ->
  forall m, db (snd (main JSON_parse hydrate argv w)) m
            = loaded JSON_parse hydrate (fs w) m (selection argv).
Proof.
  unfold load_succeeds. intros H m. rewrite main_selection. unfold bind.
  pose proof (listSampleData_Ok w) as Hl.
  pose proof (listSampleData_env w) as [Hfs _].
  destruct (listSampleData JSON_parse w) as [o w1]. cbn in *. subst o.
  destruct (insertCollections_try JSON_parse hydrate (selection argv) w1)
    as [o w2] eqn:E. cbn in H. subst o.
  rewrite (insertCollections_after_try _ _ _ E). cbn.
  apply insertCollections_try_Ok in E. destruct E as [_ [_ Hdb]].
  rewrite Hdb, Hfs. reflexivity.
Qed.

(** The size of what the loop stores for one name: the fixture's records,
    once for each time the name is listed. *)
Lemma length_loaded f c m docs names :
  model_of c = Some m ->
  fixture JSON_parse f c = Some docs ->
  List.length (loaded JSON_parse hydrate f m names)
  = count_occ string_dec names c * List.length (docs_of docs).
Proof.
  intros Hm Hf. induction names as [|c' rest IH]; [reflexivity|].
  unfold loaded in *. cbn [flat_map count_occ]. rewrite length_app, IH.
  destruct (string_dec c' c) as [->|Hne].
  - unfold additions. rewrite Hm, Hf.
    destruct (Model_eq_dec m m); [|congruence].
    rewrite length_map. cbn. reflexivity.
  - replace (additions JSON_parse hydrate f m c') with (@nil JSON);
      [reflexivity|].
    unfold additions. destruct (model_of c') as [m'|] eqn:Hm'; [|reflexivity].
    destruct (fixture JSON_parse f c'); [|reflexivity].
    destruct (Model_eq_dec m' m) as [->|]; [|reflexivity].
    exfalso. apply Hne. exact (model_of_inj _ _ _ Hm' Hm).
Qed.

(* ===================================================================== *)
(** ** The properties of the specification *)
(* ===================================================================== *)

(** C5.  Whatever the option given on the command line and whatever fails
    on the way (the listing, the connection, the reset, a fixture, an
    insert, a count), the process ends with exit status 0. *)
Theorem process_exits_with_status_zero argvItems w :
  fst (main JSON_parse hydrate argvItems w) = Exit 0.
Proof.
  rewrite main_selection. unfold bind.
  pose proof (listSampleData_Ok w) as Hl.
  destruct (listSampleData JSON_parse w) as [o w1]. cbn in Hl. subst o.
  apply insertCollections_exit.
Qed.

(** C9.  The count check only observes: it always returns normally, every
    collection holds after it exactly what it held before, the [try] block
    of the load ends the way its steps before the check ended (a failing
    count query changes nothing of it), and the exit status is 0. *)
Theorem checkCountAfterImport_observes_only names w :
  fst (checkCountAfterImport w) = Ok tt /\
  (forall m, db (snd (checkCountAfterImport w)) m = db w m) /\
  fst (insertCollections_try JSON_parse hydrate names w)
    = fst (load_steps JSON_parse hydrate names w) /\
  fst (insertCollections JSON_parse hydrate names w) = Exit 0.
Proof.
  split; [apply checkCountAfterImport_Ok|].
  split; [intro m; apply (checkCountAfterImport_db nothing w m eq_refl)|].
  split; [|apply insertCollections_exit].
  unfold insertCollections_try, load_steps, bind.
  destruct (connect "talawa-api" w) as [[[]|e|c] w1]; try reflexivity.
  destruct (resetDatabase w1) as [[[]|e|c] w2]; try reflexivity.
  destruct (for_of names (insert_one JSON_parse hydrate) w2) as [[[]|e|c] w3];
    try reflexivity.
  pose proof (checkCountAfterImport_Ok w3) as Hc.
  destruct (checkCountAfterImport w3) as [o w4]. cbn in Hc. subst o.
  reflexivity.
Qed.

(** C10.  A reset that succeeds leaves the Community collection empty, and
    the load loop that follows never inserts into it, whatever names it is
    given: the collection is still empty after the loop. *)
Theorem resetDatabase_empties_Community names w w1 :
  resetDatabase w = (Ok tt, w1) ->
  db w1 Community = [] /\
  db (snd (for_of names (insert_one JSON_parse hydrate) w1)) Community = [] /\
  calls_only (fun c => forall docs, c <> InsertMany Community docs)
             w1 (snd (for_of names (insert_one JSON_parse hydrate) w1)).
Proof.
  intro H. pose proof (resetDatabase_Ok _ _ H Community) as Hc.
  split; [exact Hc|]. split.
  - rewrite <- Hc.
    apply (keeps_for_of (db_outside (fun m => negb (Model_eqb m Community)))
             (db_outside_refl _) (db_outside_trans _) names).
    + intro c. apply insert_one_db. intros m Hm.
      destruct m; try reflexivity.
      exfalso. exact (model_of_not_Community c Hm).
    + reflexivity.
  - apply (keeps_for_of _ (calls_only_refl _) (calls_only_trans _) names).
    intro c. apply insert_one_calls. intros m d Hm docs Heq.
    inversion Heq; subst. exact (model_of_not_Community c Hm).
Qed.

(** C3, as the code has it.  When the [try] block of the load completes,
    the collection a listed name selects holds the records of that name's
    fixture file once for each time the name occurs in the list: as many
    documents as the file has records when the name is listed once. *)
Theorem load_count_is_fixture_count_per_occurrence names w w' c m records :
  model_of c = Some m ->
  insertCollections_try JSON_parse hydrate names w = (Ok tt, w') ->
  fixture JSON_parse (fs w) c = Some (JArray records) ->
  List.length (db w' m) = count_occ string_dec names c * List.length records.
Proof.
  intros Hm Hrun Hfix.
  apply insertCollections_try_Ok in Hrun. destruct Hrun as [_ [_ Hdb]].
  rewrite Hdb. apply (length_loaded _ _ _ _ names Hm Hfix).
Qed.

(** C4.  Two runs of the pipeline in succession, with the same option and
    over the same files, the second one a new process on the database the
    first one left: when both complete their load, every collection holds
    the same documents, hence the same number of them, after each run. *)
Theorem pipeline_twice_same_counts argvItems w failures m :
  load_succeeds JSON_parse hydrate argvItems w ->
  load_succeeds JSON_parse hydrate argvItems
    (rerun JSON_parse hydrate argvItems failures w) ->
  db (snd (main JSON_parse hydrate argvItems
             (rerun JSON_parse hydrate argvItems failures w))) m
  = db (snd (main JSON_parse hydrate argvItems w)) m /\
  List.length (db (snd (main JSON_parse hydrate argvItems
                          (rerun JSON_parse hydrate argvItems failures w))) m)
  = List.length (db (snd (main JSON_parse hydrate argvItems w)) m).
Proof.
  intros H1 H2.
  match goal with |- ?a = ?b /\ _ => assert (E : a = b) end.
  { rewrite (main_db_loaded _ _ H2 m), (main_db_loaded _ _ H1 m).
    unfold rerun. cbn [restart fs].
    pose proof (main_env argvItems w) as [Hfs _]. rewrite Hfs. reflexivity. }
  split; [exact E | rewrite E; reflexivity].
Qed.

(** *** Session discipline of [resetDatabase] *)

Lemma startSession_Ok_inv w s w1 :
  startSession w = (Ok s, w1) ->
  s = next_session w /\ calls w1 = (calls w ++ [StartSession])%list /\
  In s (live_sessions w1).
Proof.
  unfold startSession, bind, round_trip.
  destruct (faults w (tick w)); cbn; intro H; inversion H; subst.
  repeat split. cbn. left. reflexivity.
Qed.

(** *** Runs in which no round trip fails *)

Lemma quiet_same_env w w' : same_env w w' -> quiet w -> quiet w'.
Proof. intros [_ Hf] Hq n. rewrite Hf. apply Hq. Qed.

Lemma runs_ok_bind {A B} (m : M A) (k : A -> M B) :
  runs_ok m -> keeps same_env m -> (forall a, runs_ok (k a)) ->
  runs_ok (bind m k).
Proof.
  intros Hm He Hk w Hq. destruct (Hm w Hq) as [a [w1 E]].
  pose proof (He w) as Henv. rewrite E in Henv. cbn in Henv.
  rewrite (bind_run _ _ _ _ _ E). apply Hk. exact (quiet_same_env _ _ Henv Hq).
Qed.

Lemma connect_runs_ok n : runs_ok (connect n).
Proof.
  intros w Hq. unfold connect, bind, round_trip. rewrite (Hq (tick w)).
  eexists. eexists. reflexivity.
Qed.

Lemma startSession_runs_ok : runs_ok startSession.
Proof.
  intros w Hq. unfold startSession, bind, round_trip. rewrite (Hq (tick w)).
  eexists. eexists. reflexivity.
Qed.

Lemma deleteMany_None_runs_ok m : runs_ok (deleteMany m None).
Proof.
  intros w Hq. unfold deleteMany, delete_now, bind, round_trip.
  rewrite (Hq (tick w)). eexists. eexists. reflexivity.
Qed.

Lemma countDocuments_quiet m w :
  quiet w ->
  exists w', countDocuments m w = (Ok (List.length (db w m)), w') /\
             console w' = console w /\ db w' = db w /\ faults w' = faults w.
Proof.
  intro Hq. unfold countDocuments, bind, round_trip. rewrite (Hq (tick w)).
  eexists. split; [reflexivity|]. repeat split.
Qed.

Lemma insertMany_runs_ok m d : runs_ok (insertMany hydrate m d).
Proof.
  intros w Hq. unfold insertMany, bind, round_trip. rewrite (Hq (tick w)).
  eexists. eexists. reflexivity.
Qed.

Lemma console_log_runs_ok s : runs_ok (console_log s).
Proof. intros w _. eexists. eexists. reflexivity. Qed.

Lemma resetDatabase_callback_runs_ok : runs_ok resetDatabase_callback.
Proof.
  unfold resetDatabase_callback.
  repeat (apply runs_ok_bind;
          [apply deleteMany_None_runs_ok | apply deleteMany_env | intros _]).
  apply deleteMany_None_runs_ok.
Qed.

Lemma withTransaction_runs_ok s cb :
  runs_ok cb -> keeps same_env cb -> runs_ok (withTransaction s cb).
Proof.
  intros Hcb Henv w Hq. unfold withTransaction.
  unfold bind at 1. cbn. unfold bind at 1. cbn.
  set (w0 := set_txn (Some (s, [])) (set_calls (calls w ++ [BeginTransaction s]) w)).
  assert (Hq0 : quiet w0) by exact Hq.
  destruct (Hcb w0 Hq0) as [[] [w1 E]].
  pose proof (Henv w0) as H1. rewrite E in H1. cbn in H1.
  pose proof (quiet_same_env _ _ H1 Hq0) as Hq1.
  unfold try_catch, bind. rewrite E. unfold round_trip. rewrite (Hq1 (tick w1)).
  eexists. eexists. reflexivity.
Qed.

Lemma resetDatabase_runs_ok : runs_ok resetDatabase.
Proof.
  intros w Hq. unfold resetDatabase.
  destruct (startSession_runs_ok w Hq) as [s [w1 E1]].
  pose proof (startSession_env w) as H1. rewrite E1 in H1. cbn in H1.
  pose proof (quiet_same_env _ _ H1 Hq) as Hq1.
  rewrite (bind_run _ _ _ _ _ E1).
  destruct (withTransaction_runs_ok s _ resetDatabase_callback_runs_ok
              resetDatabase_callback_env w1 Hq1) as [[] [w2 E2]].
  unfold try_finally, try_catch. rewrite (bind_run _ _ _ _ _ E2). cbn.
  eexists. eexists. reflexivity.
Qed.

Lemma insert_one_quiet c docs w :
  quiet w -> fixture JSON_parse (fs w) c = Some docs ->
  exists w', insert_one JSON_parse hydrate c w = (Ok tt, w').
Proof.
  intros Hq Hf. unfold fixture in Hf.
  destruct (readFile (fs w) (c ++ ".json")) as [e|data] eqn:E1; [discriminate|].
  destruct (JSON_parse data) as [e|d] eqn:E2; [discriminate|].
  unfold insert_one.
  rewrite (bind_run _ _ w data w)
    by (unfold fs_readFile; rewrite E1; reflexivity).
  rewrite (bind_run _ _ w d w) by (rewrite E2; reflexivity).
  rewrite insert_switch_table. destruct (model_of c) as [m|].
  - destruct (insertMany_runs_ok m d w Hq) as [[] [w1 E]].
    rewrite (bind_run _ _ _ _ _ E). eexists. reflexivity.
  - eexists. reflexivity.
Qed.

Lemma for_of_insert_quiet names : forall w,
  quiet w ->
  (forall c, In c names -> exists docs, fixture JSON_parse (fs w) c = Some docs) ->
  exists w', for_of names (insert_one JSON_parse hydrate) w = (Ok tt, w').
Proof.
  induction names as [|c rest IH]; intros w Hq Hall.
  - eexists. reflexivity.
  - destruct (Hall c (or_introl eq_refl)) as [docs Hf].
    destruct (insert_one_quiet c docs w Hq Hf) as [w1 E].
    pose proof (insert_one_env c w) as H1. rewrite E in H1. cbn in H1.
    rewrite for_of_cons, (bind_run _ _ _ _ _ E).
    apply IH.
    + exact (quiet_same_env _ _ H1 Hq).
    + intros c' Hin. destruct H1 as [Hfs _]. rewrite Hfs.
      apply Hall. right. exact Hin.
Qed.

Lemma resetDatabase_without_session w e w1 :
  startSession w = (Throw e, w1) -> resetDatabase w = (Throw e, w1).
Proof. intro H. unfold resetDatabase. apply bind_Throw. exact H. Qed.

(** *** The listing, file by file *)

Lemma console_log_run s w :
  console_log s w = (Ok tt, set_console (console w ++ [stdout s]) w).
Proof. reflexivity. Qed.

Lemma length_toString_array elems :
  length_toString (JArray elems) = inr (Js.toString_nat (List.length elems)).
Proof. reflexivity. Qed.

Lemma for_of_list_one files (isFile : string -> bool)
      (elems : string -> list JSON) : forall w,
  (forall f, In f files -> stat_isFile (fs w) f = inr (isFile f)) ->
  (forall f, In f files -> isFile f = true ->
     exists data, readFile (fs w) f = inr data /\
                  JSON_parse data = inr (JArray (elems f))) ->
  exists w',
    for_of files (list_one JSON_parse) w = (Ok tt, w') /\
    fs w' = fs w /\
    console w'
    = (console w
       ++ map (fun f => stdout (table_row f
                                  (Js.toString_nat (List.length (elems f)))))
              (filter isFile files))%list.
Proof.
  induction files as [|f rest IH]; intros w Hstat Hread.
  - exists w. repeat split. cbn. symmetry. apply app_nil_r.
  - assert (E : exists w1,
        list_one JSON_parse f w = (Ok tt, w1) /\ fs w1 = fs w /\
        console w1
        = (console w
           ++ (if isFile f
               then [stdout (table_row f
                               (Js.toString_nat (List.length (elems f))))]
               else []))%list).
    { unfold list_one.
      rewrite (bind_run _ _ w (isFile f) w)
        by (unfold fs_stat_isFile; rewrite (Hstat f (or_introl eq_refl));
            reflexivity).
      destruct (isFile f) eqn:Hf.
      - destruct (Hread f (or_introl eq_refl) Hf) as [data [R P]].
        rewrite (bind_run _ _ w data w)
          by (unfold fs_readFile; rewrite R; reflexivity).
        rewrite (bind_run _ _ w (JArray (elems f)) w)
          by (rewrite P; reflexivity).
        rewrite (bind_run _ _ w (Js.toString_nat (List.length (elems f))) w)
          by (rewrite length_toString_array; reflexivity).
        eexists. repeat split.
      - exists w. repeat split. cbn. symmetry. apply app_nil_r. }
    destruct E as [w1 [E [Hfs Hcon]]].
    destruct (IH w1) as [w' [E' [Hfs' Hcon']]].
    + intros g Hg. rewrite Hfs. apply Hstat. right. exact Hg.
    + intros g Hg Hfile. rewrite Hfs. apply Hread; [right; exact Hg | exact Hfile].
    + exists w'. rewrite for_of_cons, (bind_run _ _ _ _ _ E). split; [exact E'|].
      split; [congruence|].
      rewrite Hcon', Hcon. cbn [filter]. destruct (isFile f); cbn.
      * rewrite <- app_assoc. reflexivity.
      * rewrite app_nil_r. reflexivity.
Qed.

(** C8.  When the directory can be read and every regular file in it
    holds a JSON array, the listing prints, after its two heading lines,
    one row for each regular file, in directory order, whose count is the
    number of elements of that file's array, and nothing for the other
    entries. *)
Theorem listSampleData_reports_array_lengths w files isFile elems :
  readdir (fs w) = inr files ->
  (forall f, In f files -> stat_isFile (fs w) f = inr (isFile f)) ->
  (forall f, In f files -> isFile f = true ->
     exists data, readFile (fs w) f = inr data /\
                  JSON_parse data = inr (JArray (elems f))) ->
  console (snd (listSampleData JSON_parse w))
  = (console w
     ++ [stdout ("Sample Data Files:" ++ Js.nl);
         stdout (table_header "| File Name")]
     ++ map (fun f => stdout (table_row f
                                (Js.toString_nat (List.length (elems f)))))
            (filter isFile files)
     ++ [stdout ""])%list.
Proof.
  intros Hdir Hstat Hread. unfold listSampleData, try_catch.
  rewrite (bind_run _ _ w files w)
    by (unfold fs_readdir; rewrite Hdir; reflexivity).
  rewrite (bind_run _ _ _ _ _ (console_log_run _ _)).
  rewrite (bind_run _ _ _ _ _ (console_log_run _ _)).
  match goal with
  | |- context [bind (for_of files _) _ ?w0] =>
      destruct (for_of_list_one files isFile elems w0 Hstat Hread)
        as [w' [E [_ Hcon]]]
  end.
  rewrite (bind_run _ _ _ _ _ E). cbn [console_log fst snd console set_console].
  rewrite Hcon. cbn [console set_console].
  rewrite <- !app_assoc. reflexivity.
Qed.

(** *** The count report when no round trip fails *)

Lemma for_of_count_one entries : forall w,
  quiet w ->
  exists w',
    for_of entries count_one w = (Ok tt, w') /\
    db w' = db w /\
    console w'
    = (console w
       ++ map (fun '(name, model) =>
                 stdout (table_row name
                           (Js.toString_nat (List.length (db w model)))))
              entries)%list.
Proof.
  induction entries as [|[name model] rest IH]; intros w Hq.
  - exists w. repeat split. cbn. symmetry. apply app_nil_r.
  - destruct (countDocuments_quiet model w Hq) as [w1 [E [Hc [Hd Hf]]]].
    assert (Hq1 : quiet w1) by (intro n; rewrite Hf; apply Hq).
    set (w2 := set_console
                 (console w1
                  ++ [stdout (table_row name
                                (Js.toString_nat (List.length (db w model))))])
                 w1).
    assert (Hq2 : quiet w2) by exact Hq1.
    destruct (IH w2 Hq2) as [w' [E' [Hd' Hc']]].
    exists w'. rewrite for_of_cons. unfold count_one at 1.
    rewrite (bind_run _ _ _ _ _ (bind_run _ _ _ _ _ E)).
    fold w2. split; [exact E'|]. split.
    + rewrite Hd'. exact Hd.
    + rewrite Hc'. cbn [console set_console w2 map]. rewrite Hc.
      change (db w2) with (db w1). rewrite Hd.
      rewrite <- app_assoc. reflexivity.
Qed.

Lemma checkCountAfterImport_quiet w :
  quiet w ->
  exists w',
    checkCountAfterImport w = (Ok tt, w') /\
    db w' = db w /\
    console w' = (console w ++ count_report (db w))%list.
Proof.
  intro Hq. unfold checkCountAfterImport, try_catch.
  destruct (connect_runs_ok "talawa-api" w Hq) as [[] [w1 E1]].
  assert (H1 : db w1 = db w /\ console w1 = console w /\ faults w1 = faults w).
  { unfold connect, bind, round_trip in E1. rewrite (Hq (tick w)) in E1.
    inversion E1. repeat split. }
  destruct H1 as [Hd1 [Hc1 Hf1]].
  rewrite (bind_run _ _ _ _ _ E1).
  rewrite (bind_run _ _ _ _ _ (console_log_run _ _)).
  rewrite (bind_run _ _ _ _ _ (console_log_run _ _)).
  match goal with
  | |- context [for_of count_collections count_one ?w0] =>
      destruct (for_of_count_one count_collections w0) as [w' [E [Hd Hc]]]
  end.
  { intro n. cbn. rewrite Hf1. apply Hq. }
  rewrite E. exists w'. split; [reflexivity|]. split.
  - rewrite Hd. exact Hd1.
  - rewrite Hc. cbn [console set_console db]. rewrite Hc1, Hd1.
    unfold count_report. rewrite <- !app_assoc. reflexivity.
Qed.

(** With readable fixtures and no failing round trip the [try] block
    completes, and its last lines on the console are the count report of
    the store it leaves and the closing message. *)
Lemma insertCollections_try_quiet names w :
  quiet w ->
  (forall c, In c names -> exists docs, fixture JSON_parse (fs w) c = Some docs) ->
  exists w',
    insertCollections_try JSON_parse hydrate names w = (Ok tt, w') /\
    exists before,
      console w'
      = (before ++ count_report (db w')
         ++ [stdout (Js.nl ++ "Collections added successfully")])%list.
Proof.
  intros Hq Hall. unfold insertCollections_try.
  destruct (connect_runs_ok "talawa-api" w Hq) as [[] [w1 E1]].
  pose proof (connect_env "talawa-api" w) as H1. rewrite E1 in H1. cbn in H1.
  pose proof (quiet_same_env _ _ H1 Hq) as Hq1.
  destruct (resetDatabase_runs_ok w1 Hq1) as [[] [w2 E2]].
  pose proof (resetDatabase_env w1) as H2. rewrite E2 in H2. cbn in H2.
  pose proof (quiet_same_env _ _ H2 Hq1) as Hq2.
  destruct (for_of_insert_quiet names w2 Hq2) as [w3 E3].
  { intros c Hin. destruct H1 as [F1 _]. destruct H2 as [F2 _].
    rewrite F2, F1. apply Hall. exact Hin. }
  assert (H3 : same_env w2 w3).
  { pose proof (keeps_for_of same_env same_env_refl same_env_trans names
                  (insert_one JSON_parse hydrate) insert_one_env w2) as K.
    rewrite E3 in K. exact K. }
  pose proof (quiet_same_env _ _ H3 Hq2) as Hq3.
  destruct (checkCountAfterImport_quiet w3 Hq3) as [w4 [E4 [Hd4 Hc4]]].
  rewrite (bind_run _ _ _ _ _ E1), (bind_run _ _ _ _ _ E2),
    (bind_run _ _ _ _ _ E3), (bind_run _ _ _ _ _ E4).
  eexists. split; [reflexivity|].
  exists (console w3). cbn [console set_console db].
  rewrite Hc4, Hd4. rewrite <- app_assoc. reflexivity.
Qed.

(** *** A run that selects two collections *)

Lemma insertCollections_calls (P : Call -> Prop) names :
  (forall c, ~ is_insert c -> P c) ->
  (forall c m d, In c names -> model_of c = Some m -> P (InsertMany m d)) ->
  keeps (calls_only P) (insertCollections JSON_parse hydrate names).
Proof.
  intros Hother Hins.
  pose proof (resetDatabase_calls P Hother).
  pose proof (checkCountAfterImport_calls P Hother).
  assert (keeps (calls_only P) (connect "talawa-api")).
  { apply connect_calls. apply Hother. cbn. auto. }
  assert (keeps (calls_only P) (for_of names (insert_one JSON_parse hydrate))).
  { apply (keeps_for_of_in _ (calls_only_refl P) (calls_only_trans P)).
    intros c Hin. apply insert_one_calls. intros m d Hm.
    exact (Hins c m d Hin Hm). }
  unfold insertCollections, insertCollections_try. frame.
Qed.

(** C6.  With the option "users,events", readable fixtures for the two
    names and no failing round trip: the process exits with status 0; the
    only inserts made are into the users and the events collections, which
    hold their fixtures' documents; every other collection is empty; and
    the console ends with the count report of all nine collections,
    followed by the closing message, with a count of 0 on the row of every
    collection that was not selected. *)
Theorem partial_selection_users_events w users events :
  quiet w ->
  fixture JSON_parse (fs w) "users" = Some users ->
  fixture JSON_parse (fs w) "events" = Some events ->
  exists w',
    main JSON_parse hydrate (Some "users,events") w = (Exit 0, w') /\
    calls_only (fun c => forall m d, c = InsertMany m d -> m = User \/ m = Event)
               w w' /\
    db w' User = map (hydrate User) (docs_of users) /\
    db w' Event = map (hydrate Event) (docs_of events) /\
    (forall m, m <> User -> m <> Event -> db w' m = []) /\
    (exists before,
        console w'
        = (before ++ count_report (db w')
           ++ [stdout (Js.nl ++ "Collections added successfully")])%list) /\
    (forall name m, In (name, m) count_collections -> m <> User -> m <> Event ->
        In (stdout (table_row name "0")) (console w')).
Proof.
  intros Hq Hu He.
  set (P := fun c : Call =>
              forall m (d : JSON), c = InsertMany m d -> m = User \/ m = Event).
  assert (Hcalls : keeps (calls_only P)
                     (main JSON_parse hydrate (Some "users,events"))).
  { intro w0. rewrite main_selection. revert w0.
    apply (keeps_bind _ (calls_only_trans P)).
    - apply listSampleData_calls.
    - intros _. apply insertCollections_calls.
      + intros c Hc m d ->. exfalso. apply Hc. exact I.
      + intros c m d Hin Hm m' d' Heq. inversion Heq; subst m' d'.
        cbn in Hin. destruct Hin as [<-|[<-|[]]]; cbv in Hm;
          inversion Hm; auto. }
  specialize (Hcalls w).
  rewrite main_selection in *.
  change (selection (Some "users,events")) with ["users"; "events"] in *.
  pose proof (listSampleData_Ok w) as Hl.
  pose proof (listSampleData_env w) as Henv.
  destruct (listSampleData JSON_parse w) as [o w0] eqn:El.
  cbn [fst snd] in Hl, Henv. subst o.
  pose proof (quiet_same_env _ _ Henv Hq) as Hq0.
  destruct Henv as [Hfs _].
  destruct (insertCollections_try_quiet ["users"; "events"] w0 Hq0)
    as [w' [Etry [before Hcon]]].
  { intros c [<-|[<-|[]]]; rewrite Hfs; eauto. }
  rewrite (bind_run _ _ _ _ _ El) in *.
  rewrite (insertCollections_after_try _ _ _ Etry) in *.
  cbn [snd] in Hcalls.
  apply insertCollections_try_Ok in Etry. destruct Etry as [_ [_ Hdb]].
  assert (Hload : forall m,
            db w' m
            = ((if Model_eq_dec User m
                then map (hydrate m) (docs_of users) else [])
               ++ (if Model_eq_dec Event m
                   then map (hydrate m) (docs_of events) else []))%list).
  { intro m. rewrite Hdb, Hfs. unfold loaded. cbn [flat_map].
    unfold additions.
    change (model_of "users") with (Some User).
    change (model_of "events") with (Some Event).
    rewrite Hu, He. rewrite app_nil_r. reflexivity. }
  assert (Hempty : forall m, m <> User -> m <> Event -> db w' m = []).
  { intros m H1 H2. rewrite Hload.
    destruct (Model_eq_dec User m); [congruence|].
    destruct (Model_eq_dec Event m); [congruence|]. reflexivity. }
  exists w'. split; [reflexivity|]. split; [exact Hcalls|].
  split; [rewrite Hload; cbn; apply app_nil_r|].
  split; [rewrite Hload; reflexivity|].
  split; [exact Hempty|]. split; [exists before; exact Hcon|].
  intros name m Hin H1 H2. rewrite Hcon.
  apply in_or_app. right. apply in_or_app. left.
  unfold count_report. apply in_or_app. right.
  apply in_map_iff. exists (name, m). split; [|exact Hin].
  rewrite (Hempty m H1 H2). reflexivity.
Qed.

(** *** What the driver offers and the reset does not use

    A transaction whose deletions name its session is all or nothing: on
    success every listed collection is empty, on failure the store is what
    it was.  The callback of [resetDatabase] names no session. *)

Lemma apply_pending_spec pending : forall d m,
  apply_pending pending d m
  = if in_dec Model_eq_dec m pending then [] else d m.
Proof.
  unfold apply_pending.
  induction pending as [|p rest IH]; intros d m; [reflexivity|].
  cbn [fold_left]. rewrite IH. unfold put.
  destruct (in_dec Model_eq_dec m rest) as [Hin|Hout];
    destruct (in_dec Model_eq_dec m (p :: rest)) as [Hin'|Hout'];
    try reflexivity.
  - exfalso. apply Hout'. right. exact Hin.
  - destruct (Model_eq_dec p m) as [->|Hne]; [reflexivity|].
    destruct Hin' as [->|Hin']; [congruence | contradiction].
  - destruct (Model_eq_dec p m) as [->|Hne]; [|reflexivity].
    exfalso. apply Hout'. left. reflexivity.
Qed.

Lemma deleteMany_session_step s m w pending :
  txn w = Some (s, pending) ->
  (exists e w1, deleteMany m (Some s) w = (Throw e, w1) /\ db w1 = db w) \/
  (exists w1, deleteMany m (Some s) w = (Ok tt, w1) /\ db w1 = db w /\
              txn w1 = Some (s, (pending ++ [m])%list)).
Proof.
  intro Ht. unfold deleteMany, bind, round_trip.
  cbn [fst snd txn set_calls set_tick]. rewrite Ht, Nat.eqb_refl.
  destruct (faults w (tick w)) as [f|].
  - left. eexists. eexists. split; reflexivity.
  - right. eexists. repeat split.
Qed.

Lemma for_of_session_deletes s ms : forall w pending,
  txn w = Some (s, pending) ->
  db (snd (for_of ms (fun m => deleteMany m (Some s)) w)) = db w /\
  (forall c, fst (for_of ms (fun m => deleteMany m (Some s)) w) <> Exit c) /\
  (fst (for_of ms (fun m => deleteMany m (Some s)) w) = Ok tt ->
   txn (snd (for_of ms (fun m => deleteMany m (Some s)) w))
   = Some (s, (pending ++ ms)%list)).
Proof.
  induction ms as [|m rest IH]; intros w pending Ht.
  - cbn. repeat split; try discriminate. intros _. rewrite app_nil_r. exact Ht.
  - rewrite for_of_cons.
    destruct (deleteMany_session_step s m w pending Ht)
      as [[e [w1 [E Hd]]] | [w1 [E [Hd Ht1]]]].
    + rewrite (bind_Throw _ _ _ _ _ E). cbn.
      repeat split; try exact Hd; intros; discriminate.
    + rewrite (bind_run _ _ _ _ _ E).
      destruct (IH w1 _ Ht1) as [Hd' [Hx Hok]].
      rewrite <- app_assoc in Hok. rewrite Hd'. repeat split; assumption.
Qed.

Lemma withTransaction_cases s cb w :
  match cb (set_txn (Some (s, []))
              (set_calls (calls w ++ [BeginTransaction s]) w)) with
  | (Ok _, w1) =>
      match faults w1 (tick w1) with
      | Some f =>
          fst (withTransaction s cb w) = Throw (error f) /\
          db (snd (withTransaction s cb w)) = db w1
      | None =>
          fst (withTransaction s cb w) = Ok tt /\
          db (snd (withTransaction s cb w))
          = apply_pending (pending_of (txn w1)) (db w1)
      end
  | (Throw e, w1) =>
      fst (withTransaction s cb w) = Throw e /\
      db (snd (withTransaction s cb w)) = db w1
  | (Exit c, w1) => fst (withTransaction s cb w) = Exit c
  end.
Proof.
  unfold withTransaction, bind, try_catch, local_call, round_trip, throw.
  cbn [fst snd].
  destruct (cb (set_txn (Some (s, []))
                  (set_calls (calls w ++ [BeginTransaction s]) w)))
    as [[[]|e|c] w1]; cbn.
  - destruct (faults w1 (tick w1)); cbn; split; reflexivity.
  - split; reflexivity.
  - reflexivity.
Qed.

Lemma transaction_with_session_is_atomic s ms w :
  (fst (withTransaction s (for_of ms (fun m => deleteMany m (Some s))) w) = Ok tt /\
   forall m,
     db (snd (withTransaction s (for_of ms (fun m => deleteMany m (Some s))) w)) m
     = if in_dec Model_eq_dec m ms then [] else db w m)
  \/
  (exists e,
     fst (withTransaction s (for_of ms (fun m => deleteMany m (Some s))) w)
     = Throw e /\
     db (snd (withTransaction s (for_of ms (fun m => deleteMany m (Some s))) w))
     = db w).
Proof.
  pose proof (withTransaction_cases s
                (for_of ms (fun m => deleteMany m (Some s))) w) as K.
  set (w0 := set_txn (Some (s, []))
               (set_calls (calls w ++ [BeginTransaction s]) w)) in K.
  destruct (for_of_session_deletes s ms w0 [] eq_refl) as [Hd [Hx Hok]].
  destruct (for_of ms (fun m => deleteMany m (Some s)) w0) as [[[]|e|c] w1];
    cbn [fst snd] in *.
  - destruct (faults w1 (tick w1)) as [f|]; destruct K as [K1 K2].
    + right. exists (error f). split; [exact K1|]. rewrite K2. exact Hd.
    + left. split; [exact K1|]. intro m.
      rewrite K2, (Hok eq_refl). cbn [pending_of app].
      rewrite apply_pending_spec, Hd. reflexivity.
  - destruct K as [K1 K2]. right. exists e. split; [exact K1|].
    rewrite K2. exact Hd.
  - exfalso. apply (Hx c). reflexivity.
Qed.

(** *** A name outside the switch whose file can be read

    When [<name>.json] exists and parses, a name the switch does not know
    is reported and the turn returns normally: nothing is inserted and the
    loop goes on. *)
Lemma insert_one_unknown_name c docs w :
  model_of c = None ->
  fixture JSON_parse (fs w) c = Some docs ->
  insert_one JSON_parse hydrate c w
  = (Ok tt,
     set_console
       (console w
        ++ [stdout (Js.two_args Js.red ("Invalid collection name: " ++ c));
            stdout (Js.two_args Js.magenta ("Added " ++ c ++ " collection"))])
       w).
Proof.
  intros Hm Hf. unfold fixture in Hf.
  destruct (readFile (fs w) (c ++ ".json")) as [e|data] eqn:E1; [discriminate|].
  destruct (JSON_parse data) as [e|d] eqn:E2; [discriminate|].
  unfold insert_one.
  rewrite (bind_run _ _ w data w)
    by (unfold fs_readFile; rewrite E1; reflexivity).
  rewrite (bind_run _ _ w d w) by (rewrite E2; reflexivity).
  rewrite insert_switch_table, Hm.
  rewrite (bind_run _ _ _ _ _ (console_log_run _ _)).
  rewrite console_log_run. cbn [console set_console].
  rewrite <- app_assoc. reflexivity.
Qed.

(** When the file is missing the turn throws before the switch is
    reached: no message about the name, and the loop stops. *)
Lemma insert_one_missing_file c e w :
  readFile (fs w) (c ++ ".json") = inl e ->
  insert_one JSON_parse hydrate c w = (Throw e, w).
Proof.
  intro E. unfold insert_one. apply bind_Throw.
  unfold fs_readFile. rewrite E. reflexivity.
Qed.

(* ===================================================================== *)
(** ** Further properties of the script *)
(* ===================================================================== *)

(** *** The listing *)

Lemma only_console_refl w : only_console w w.
Proof. repeat split. Qed.

Lemma only_console_trans a b c :
  only_console a b -> only_console b c -> only_console a c.
Proof.
  unfold only_console. intros H1 H2.
  destruct H1 as (?&?&?&?&?&?&?&?). destruct H2 as (?&?&?&?&?&?&?&?).
  repeat split; congruence.
Qed.

Lemma console_log_only_console s : keeps only_console (console_log s).
Proof. intro w. repeat split. Qed.

Lemma console_error_only_console s e : keeps only_console (console_error s e).
Proof. intro w. repeat split. Qed.

#[local] Hint Resolve only_console_refl only_console_trans
  console_log_only_console console_error_only_console : frame.

(** X1.  The listing is informational: it always returns normally,
    whatever the directory holds, and it changes nothing but the console
    (no driver call, no round trip, no collection, no session). *)
Theorem listSampleData_only_prints w :
  fst (listSampleData JSON_parse w) = Ok tt /\
  only_console w (snd (listSampleData JSON_parse w)) /\
  exists lines,
    console (snd (listSampleData JSON_parse w)) = (console w ++ lines)%list.
Proof.
  split; [apply listSampleData_Ok|]. split.
  - revert w. fold (keeps only_console (listSampleData JSON_parse)).
    unfold listSampleData, list_one. frame.
  - assert (K : keeps (fun a b => exists l, console b = (console a ++ l)%list)
                  (listSampleData JSON_parse)).
    { assert (Hr : forall a : World, exists l, console a = (console a ++ l)%list).
      { intro a. exists []. symmetry. apply app_nil_r. }
      assert (Ht : forall a b c : World,
                 (exists l, console b = (console a ++ l)%list) ->
                 (exists l, console c = (console b ++ l)%list) ->
                 exists l, console c = (console a ++ l)%list).
      { intros a b c [l1 E1] [l2 E2]. exists (l1 ++ l2)%list.
        rewrite E2, E1. symmetry. apply app_assoc. }
      assert (forall s, keeps (fun a b => exists l, console b = (console a ++ l)%list)
                          (console_log s)).
      { intros s a. eexists. reflexivity. }
      assert (forall s e, keeps (fun a b => exists l, console b = (console a ++ l)%list)
                            (console_error s e)).
      { intros s e a. eexists. reflexivity. }
      unfold listSampleData, list_one. frame. }
    apply K.
Qed.

Lemma for_of_app {A} (xs ys : list A) body : forall w,
  for_of (xs ++ ys) body w
  = match for_of xs body w with
    | (Ok _, w1) => for_of ys body w1
    | (Throw e, w1) => (Throw e, w1)
    | (Exit c, w1) => (Exit c, w1)
    end.
Proof.
  induction xs as [|x rest IH]; intro w.
  - cbn. destruct (for_of ys body w) as [[[]|e|c] w1]; reflexivity.
  - change ((x :: rest) ++ ys)%list with (x :: (rest ++ ys))%list.
    rewrite !for_of_cons. unfold bind.
    destruct (body x w) as [[[]|e|c] w1]; [apply IH | reflexivity | reflexivity].
Qed.

(** One turn of the listing, read off the files. *)
Lemma list_one_entry file w :
  list_one JSON_parse file w
  = match list_entry JSON_parse (fs w) file with
    | inl e => (Throw e, w)
    | inr None => (Ok tt, w)
    | inr (Some count) =>
        (Ok tt, set_console (console w ++ [stdout (table_row file count)]) w)
    end.
Proof.
  unfold list_one, list_entry, bind, fs_stat_isFile, fs_readFile.
  destruct (stat_isFile (fs w) file) as [e|[|]]; try reflexivity. cbn.
  destruct (readFile (fs w) file) as [e|data]; try reflexivity. cbn.
  destruct (JSON_parse data) as [e|docs]; try reflexivity. cbn.
  destruct (length_toString docs) as [e|count]; reflexivity.
Qed.

Lemma for_of_list_entries files : forall w,
  (forall f, In f files -> exists o, list_entry JSON_parse (fs w) f = inr o) ->
  exists w',
    for_of files (list_one JSON_parse) w = (Ok tt, w') /\
    fs w' = fs w /\
    console w' = (console w ++ listed_rows JSON_parse (fs w) files)%list.
Proof.
  induction files as [|f rest IH]; intros w Hgood.
  - exists w. repeat split. cbn. symmetry. apply app_nil_r.
  - destruct (Hgood f (or_introl eq_refl)) as [o Ho].
    rewrite for_of_cons. unfold bind. rewrite list_one_entry.
    unfold listed_rows. cbn [flat_map]. rewrite Ho.
    destruct o as [count|].
    + destruct (IH (set_console (console w ++ [stdout (table_row f count)]) w))
        as [w' [E [Hfs Hcon]]].
      { intros g Hg. apply Hgood. right. exact Hg. }
      exists w'. split; [exact E|]. split; [exact Hfs|].
      rewrite Hcon. cbn [console set_console fs]. rewrite <- app_assoc.
      reflexivity.
    + destruct (IH w) as [w' [E [Hfs Hcon]]].
      { intros g Hg. apply Hgood. right. exact Hg. }
      exists w'. split; [exact E|]. split; [exact Hfs|]. exact Hcon.
Qed.

(** X2.  The listing stops at the first entry whose turn throws (a file
    that cannot be examined, read or parsed, or whose value has no usable
    length): the rows of the entries before it are printed, then the error
    line, and nothing is printed for the entries after it, not even the
    closing empty line. *)
Theorem listSampleData_stops_at_first_failure w before bad after e :
  readdir (fs w) = inr (before ++ bad :: after)%list ->
  (forall f, In f before -> exists o, list_entry JSON_parse (fs w) f = inr o) ->
  list_entry JSON_parse (fs w) bad = inl e ->
  console (snd (listSampleData JSON_parse w))
  = (console w
     ++ [stdout ("Sample Data Files:" ++ Js.nl);
         stdout (table_header "| File Name")]
     ++ listed_rows JSON_parse (fs w) before
     ++ [stderr (Js.two_args Js.red "Error listing sample data: ") e])%list.
Proof.
  intros Hdir Hgood Hbad. unfold listSampleData, try_catch.
  rewrite (bind_run _ _ w (before ++ bad :: after)%list w)
    by (unfold fs_readdir; rewrite Hdir; reflexivity).
  rewrite (bind_run _ _ _ _ _ (console_log_run _ _)).
  rewrite (bind_run _ _ _ _ _ (console_log_run _ _)).
  match goal with
  | |- context [bind (for_of _ _) _ ?w0] =>
      destruct (for_of_list_entries before w0 Hgood) as [w1 [E [Hfs Hcon]]];
      assert (T : for_of (before ++ bad :: after) (list_one JSON_parse) w0
                  = (Throw e, w1))
  end.
  { rewrite for_of_app, E, for_of_cons. apply bind_Throw.
    rewrite list_one_entry, Hfs. cbn [fs set_console]. rewrite Hbad.
    reflexivity. }
  rewrite (bind_Throw _ _ _ _ _ T). cbn [console_error snd console set_console].
  rewrite Hcon. cbn [console set_console fs]. rewrite <- !app_assoc. reflexivity.
Qed.

(** X3.  A regular file whose JSON value is [null], a boolean, a number
    or an object without a [length] member (a fixture that holds one
    record instead of an array of records) makes its turn of the listing
    throw a TypeError: no row is printed for it. *)
Theorem list_entry_rejects_value_without_length f file data docs :
  stat_isFile f file = inr true ->
  readFile f file = inr data ->
  JSON_parse data = inr docs ->
  lacks_length docs ->
  exists e, list_entry JSON_parse f file = inl e /\ err_name e = "TypeError".
Proof.
  intros Hs Hr Hp Hl. unfold list_entry. rewrite Hs, Hr, Hp.
  destruct docs; cbn in Hl; try contradiction;
    try (eexists; split; reflexivity).
  unfold length_toString. cbn. rewrite Hl. eexists. split; reflexivity.
Qed.

(** *** The load *)

Lemma load_steps_Ok names w w1 :
  load_steps JSON_parse hydrate names w = (Ok tt, w1) ->
  exists wa wb,
    connect "talawa-api" w = (Ok tt, wa) /\
    resetDatabase wa = (Ok tt, wb) /\
    for_of names (insert_one JSON_parse hydrate) wb = (Ok tt, w1) /\
    fs wb = fs w /\
    forall m, db w1 m = loaded JSON_parse hydrate (fs w) m names.
Proof.
  unfold load_steps. intro H.
  apply bind_Ok in H. destruct H as [[] [wa [E1 H]]].
  apply bind_Ok in H. destruct H as [[] [wb [E2 E3]]].
  exists wa, wb. repeat split; try assumption.
  - pose proof (connect_env "talawa-api" w) as [F1 _]. rewrite E1 in F1.
    pose proof (resetDatabase_env wa) as [F2 _]. rewrite E2 in F2.
    cbn in F1, F2. congruence.
  - intro m.
    pose proof (connect_env "talawa-api" w) as [F1 _]. rewrite E1 in F1.
    pose proof (resetDatabase_env wa) as [F2 _]. rewrite E2 in F2.
    cbn in F1, F2.
    destruct (for_of_insert_Ok _ _ _ E3) as [_ [_ Hdb]].
    rewrite Hdb, (resetDatabase_Ok _ _ E2 m), F2, F1. reflexivity.
Qed.

Lemma main_after_load argvItems w :
  load_succeeds JSON_parse hydrate argvItems w ->
  exists w0 w',
    listSampleData JSON_parse w = (Ok tt, w0) /\ fs w0 = fs w /\
    insertCollections_try JSON_parse hydrate (selection argvItems) w0
    = (Ok tt, w') /\
    main JSON_parse hydrate argvItems w = (Exit 0, w').
Proof.
  unfold load_succeeds. intro H.
  pose proof (listSampleData_Ok w) as Hl.
  pose proof (listSampleData_env w) as [Hfs _].
  destruct (listSampleData JSON_parse w) as [o w0] eqn:El.
  cbn [fst snd] in *. subst o.
  destruct (insertCollections_try JSON_parse hydrate (selection argvItems) w0)
    as [o w'] eqn:E. cbn [fst] in H. subst o.
  exists w0, w'. repeat split; try assumption.
  rewrite main_selection, (bind_run _ _ _ _ _ El).
  apply insertCollections_after_try. exact E.
Qed.

(** X4.  A run without the option, or with an empty one, takes the
    default list.  When its load completes, each of the nine counted
    collections holds exactly the documents of its own fixture file, in
    file order, and the Community collection is empty. *)
Theorem default_run_loads_every_fixture argvItems w :
  argvItems = None \/ argvItems = Some "" ->
  load_succeeds JSON_parse hydrate argvItems w ->
  db (snd (main JSON_parse hydrate argvItems w)) Community = [] /\
  forall name m,
    In (name, m) count_collections ->
    exists docs,
      fixture JSON_parse (fs w) name = Some docs /\
      db (snd (main JSON_parse hydrate argvItems w)) m
      = map (hydrate m) (docs_of docs).
Proof.
  intros Harg Hload.
  assert (Hsel : selection argvItems = collections)
    by (destruct Harg as [->| ->]; reflexivity).
  destruct (main_after_load _ _ Hload) as [w0 [w' [_ [Hfs [Etry Emain]]]]].
  rewrite Emain. cbn [snd]. rewrite Hsel in Etry.
  apply insertCollections_try_Ok in Etry. destruct Etry as [_ [Hall Hdb]].
  rewrite Hfs in Hall, Hdb.
  assert (Hfix : forall c, In c collections ->
                   exists docs, fixture JSON_parse (fs w) c = Some docs)
    by exact Hall.
  destruct (Hfix "users") as [d1 F1]; [cbn; tauto|].
  destruct (Hfix "organizations") as [d2 F2]; [cbn; tauto|].
  destruct (Hfix "posts") as [d3 F3]; [cbn; tauto|].
  destruct (Hfix "events") as [d4 F4]; [cbn; tauto|].
  destruct (Hfix "venue") as [d5 F5]; [cbn; tauto|].
  destruct (Hfix "recurrenceRules") as [d6 F6]; [cbn; tauto|].
  destruct (Hfix "appUserProfiles") as [d7 F7]; [cbn; tauto|].
  destruct (Hfix "actionItemCategories") as [d8 F8]; [cbn; tauto|].
  destruct (Hfix "agendaCategories") as [d9 F9]; [cbn; tauto|].
  assert (Hdb' : forall m,
            db w' m
            = ((if Model_eq_dec User m then map (hydrate m) (docs_of d1) else [])
               ++ (if Model_eq_dec Organization m
                   then map (hydrate m) (docs_of d2) else [])
               ++ (if Model_eq_dec Post m
                   then map (hydrate m) (docs_of d3) else [])
               ++ (if Model_eq_dec Event m
                   then map (hydrate m) (docs_of d4) else [])
               ++ (if Model_eq_dec Venue m
                   then map (hydrate m) (docs_of d5) else [])
               ++ (if Model_eq_dec RecurrenceRule m
                   then map (hydrate m) (docs_of d6) else [])
               ++ (if Model_eq_dec AppUserProfile m
                   then map (hydrate m) (docs_of d7) else [])
               ++ (if Model_eq_dec ActionItemCategory m
                   then map (hydrate m) (docs_of d8) else [])
               ++ (if Model_eq_dec AgendaCategoryModel m
                   then map (hydrate m) (docs_of d9) else []))%list).
  { intro m. rewrite Hdb. unfold loaded, collections. cbn [flat_map].
    unfold additions.
    change (model_of "users") with (Some User).
    change (model_of "organizations") with (Some Organization).
    change (model_of "posts") with (Some Post).
    change (model_of "events") with (Some Event).
    change (model_of "venue") with (Some Venue).
    change (model_of "recurrenceRules") with (Some RecurrenceRule).
    change (model_of "appUserProfiles") with (Some AppUserProfile).
    change (model_of "actionItemCategories") with (Some ActionItemCategory).
    change (model_of "agendaCategories") with (Some AgendaCategoryModel).
    rewrite F1, F2, F3, F4, F5, F6, F7, F8, F9.
    rewrite !app_nil_r. reflexivity. }
  split.
  - rewrite Hdb'. reflexivity.
  - intros name m Hin. cbn in Hin.
    repeat (destruct Hin as [Hin|Hin];
            [inversion Hin; subst name m; eexists; split;
             [eassumption | rewrite Hdb'; cbn; rewrite ?app_nil_r; reflexivity]
            |]).
    contradiction.
Qed.


Lemma calls_only_weaken (P Q : Call -> Prop) w w' :
  (forall c, P c -> Q c) -> calls_only P w w' -> calls_only Q w w'.
Proof.
  intros HPQ [l [E F]]. exists l. split; [exact E|].
  eapply Forall_impl; [exact HPQ | exact F].
Qed.

Lemma resetDatabase_reset_calls : keeps (calls_only reset_call) resetDatabase.
Proof.
  assert (forall m, keeps (calls_only reset_call) (deleteMany m None)).
  { intro m. apply deleteMany_calls. exact I. }
  assert (keeps (calls_only reset_call) resetDatabase_callback).
  { unfold resetDatabase_callback. frame. }
  assert (forall s, keeps (calls_only reset_call)
                      (withTransaction s resetDatabase_callback)).
  { intro s. apply withTransaction_calls; try exact I. assumption. }
  assert (keeps (calls_only reset_call) startSession).
  { apply startSession_calls. exact I. }
  assert (forall s, keeps (calls_only reset_call) (endSession s)).
  { intro s. apply endSession_calls. exact I. }
  unfold resetDatabase. frame.
Qed.

Lemma insertCollections_after_throw names w e w1 :
  insertCollections_try JSON_parse hydrate names w = (Throw e, w1) ->
  insertCollections JSON_parse hydrate names w
  = (Exit 0,
     set_console
       (console w1
        ++ [stderr (Js.two_args Js.red "Error adding collections: ") e]) w1).
Proof.
  intro H. unfold insertCollections, try_finally, try_catch. rewrite H.
  reflexivity.
Qed.

(** X5.  A turn of the load loop that throws (a fixture that cannot be
    read or parsed, an insert that fails) ends the load: the error is
    reported once, the names after it are never read, no count is made,
    and the process exits with status 0.  Nothing is undone: every
    collection other than the one the failing name selects holds what the
    names before it have loaded. *)
Theorem load_stops_at_first_failing_turn before bad after e w w1 w2 :
  load_steps JSON_parse hydrate before w = (Ok tt, w1) ->
  insert_one JSON_parse hydrate bad w1 = (Throw e, w2) ->
  insertCollections JSON_parse hydrate (before ++ bad :: after) w
  = (Exit 0,
     set_console
       (console w2
        ++ [stderr (Js.two_args Js.red "Error adding collections: ") e]) w2) /\
  (forall m, model_of bad <> Some m ->
             db w2 m = loaded JSON_parse hydrate (fs w) m before) /\
  calls_only not_a_count w w2.
Proof.
  intros H1 H2.
  destruct (load_steps_Ok _ _ _ H1) as [wa [wb [E1 [E2 [E3 [_ Hdb]]]]]].
  split; [|split].
  - apply insertCollections_after_throw. unfold insertCollections_try.
    rewrite (bind_run _ _ _ _ _ E1), (bind_run _ _ _ _ _ E2).
    apply bind_Throw. rewrite for_of_app, E3, for_of_cons.
    apply bind_Throw. exact H2.
  - intros m Hm. rewrite <- Hdb.
    pose proof (insert_one_db (fun x => if Model_eq_dec x m then false else true)
                  bad) as K.
    assert (Hsel : forall m0, model_of bad = Some m0 ->
                     (if Model_eq_dec m0 m then false else true) = true).
    { intros m0 Hm0. destruct (Model_eq_dec m0 m); [congruence|reflexivity]. }
    specialize (K Hsel w1 m). rewrite H2 in K. apply K.
    destruct (Model_eq_dec m m); congruence.
  - assert (K1 : calls_only not_a_count w wa).
    { assert (P : not_a_count (Connect "talawa-api")) by (intros m; discriminate).
      pose proof (connect_calls not_a_count "talawa-api" P w) as K.
      rewrite E1 in K. exact K. }
    assert (K2 : calls_only not_a_count wa wb).
    { pose proof (resetDatabase_reset_calls wa) as K. rewrite E2 in K.
      apply (calls_only_weaken reset_call); [|exact K].
      intros c Hc m ->. exact Hc. }
    assert (Hone : forall c, keeps (calls_only not_a_count)
                               (insert_one JSON_parse hydrate c)).
    { intro c. apply insert_one_calls. intros m d _ m'. discriminate. }
    assert (K3 : calls_only not_a_count wb w1).
    { pose proof (keeps_for_of _ (calls_only_refl not_a_count)
                    (calls_only_trans not_a_count) before _ Hone wb) as K.
      rewrite E3 in K. exact K. }
    assert (K4 : calls_only not_a_count w1 w2).
    { pose proof (Hone bad w1) as K. rewrite H2 in K. exact K. }
    eauto using calls_only_trans.
Qed.


(** X7.  Names outside the switch whose files happen to exist and parse
    are each reported as invalid and, all the same, as added; the loop
    goes through all of them and returns normally, and nothing but the
    console changes: no insert, no round trip. *)
Theorem unknown_names_with_files_only_print names : forall w,
  (forall c, In c names ->
     model_of c = None /\
     exists docs, fixture JSON_parse (fs w) c = Some docs) ->
  exists w',
    for_of names (insert_one JSON_parse hydrate) w = (Ok tt, w') /\
    only_console w w' /\
    console w'
    = (console w
       ++ flat_map
            (fun c =>
               [ stdout (Js.two_args Js.red ("Invalid collection name: " ++ c));
                 stdout (Js.two_args Js.magenta ("Added " ++ c ++ " collection")) ])
            names)%list.
Proof.
  induction names as [|c rest IH]; intros w Hall.
  - exists w. repeat split. cbn. symmetry. apply app_nil_r.
  - destruct (Hall c (or_introl eq_refl)) as [Hm [docs Hf]].
    pose proof (insert_one_unknown_name c docs w Hm Hf) as E.
    destruct (IH (set_console
                    (console w
                     ++ [stdout (Js.two_args Js.red ("Invalid collection name: " ++ c));
                         stdout (Js.two_args Js.magenta ("Added " ++ c ++ " collection"))])
                    w)) as [w' [E' [Ho Hc]]].
    { intros c' Hin. apply Hall. right. exact Hin. }
    exists w'. rewrite for_of_cons, (bind_run _ _ _ _ _ E).
    split; [exact E'|]. split.
    + eapply only_console_trans; [|exact Ho]. repeat split.
    + rewrite Hc. cbn [console set_console flat_map].
      rewrite <- app_assoc. reflexivity.
Qed.

(** *** The order of the driver calls *)

Lemma insertCollections_calls_of_try names w :
  calls (snd (insertCollections JSON_parse hydrate names w))
  = calls (snd (insertCollections_try JSON_parse hydrate names w)).
Proof.
  unfold insertCollections, try_finally, try_catch.
  destruct (insertCollections_try JSON_parse hydrate names w)
    as [[[]|e|c] w1]; reflexivity.
Qed.

(** X8.  In every run, whatever fails, the driver calls of
    [insertCollections] come in two blocks: first the connection and the
    calls of the reset, with no insert and no count among them, then only
    inserts, the second connection and counts.  No deletion is ever
    issued after an insert, and no insert before the reset is over. *)
Theorem reset_calls_come_before_load_calls names w :
  exists first second,
    calls (snd (insertCollections JSON_parse hydrate names w))
    = (calls w ++ first ++ second)%list /\
    Forall before_load first /\ Forall after_reset second.
Proof.
  rewrite insertCollections_calls_of_try.
  set (rest := for_of names (insert_one JSON_parse hydrate) ;;
               checkCountAfterImport ;;
               console_log (Js.nl ++ "Collections added successfully")).
  assert (K1 : keeps (calls_only before_load)
                 (connect "talawa-api" ;; resetDatabase)).
  { assert (keeps (calls_only before_load) (connect "talawa-api")).
    { apply connect_calls. exact I. }
    assert (keeps (calls_only before_load) resetDatabase).
    { intro w0. apply (calls_only_weaken reset_call).
      - intros c Hc. destruct c; cbn in *; tauto.
      - apply resetDatabase_reset_calls. }
    frame. }
  assert (K2 : keeps (calls_only after_reset) rest).
  { assert (forall c, keeps (calls_only after_reset)
                        (insert_one JSON_parse hydrate c)).
    { intro c. apply insert_one_calls. intros m d _. exact I. }
    assert (keeps (calls_only after_reset) checkCountAfterImport).
    { assert (keeps (calls_only after_reset) (connect "talawa-api")).
      { apply connect_calls. exact I. }
      assert (forall m, keeps (calls_only after_reset) (countDocuments m)).
      { intro m. apply countDocuments_calls. exact I. }
      unfold checkCountAfterImport, count_one. frame. }
    unfold rest. frame. }
  assert (E : insertCollections_try JSON_parse hydrate names w
              = match (connect "talawa-api" ;; resetDatabase) w with
                | (Ok _, w1) => rest w1
                | (Throw e, w1) => (Throw e, w1)
                | (Exit c, w1) => (Exit c, w1)
                end).
  { unfold insertCollections_try, rest, bind.
    destruct (connect "talawa-api" w) as [[[]|e|c] wa]; reflexivity. }
  rewrite E. specialize (K1 w).
  destruct ((connect "talawa-api" ;; resetDatabase) w) as [[[]|e|c] w1];
    cbn [snd] in K1; destruct K1 as [l1 [E1 F1]].
  - specialize (K2 w1). destruct K2 as [l2 [E2 F2]].
    exists l1, l2. rewrite E2, E1, <- app_assoc. repeat split; assumption.
  - exists l1, []. cbn [snd]. rewrite E1, app_nil_r. repeat split; auto.
  - exists l1, []. cbn [snd]. rewrite E1, app_nil_r. repeat split; auto.
Qed.

(** *** Sessions and transactions over a whole run *)

Lemma same_driver_refl w : same_driver w w.
Proof. repeat split. Qed.

Lemma same_driver_trans a b c :
  same_driver a b -> same_driver b c -> same_driver a c.
Proof.
  unfold same_driver. intros (?&?&?) (?&?&?). repeat split; congruence.
Qed.

Lemma same_driver_atoms :
  (forall s, keeps same_driver (console_log s)) /\
  (forall s e, keeps same_driver (console_error s e)) /\
  (forall c, keeps same_driver (round_trip c)) /\
  (forall c, keeps same_driver (local_call c)).
Proof. repeat split. Qed.

Lemma connect_same_driver n : keeps same_driver (connect n).
Proof.
  destruct same_driver_atoms as (?&?&?&?).
  pose proof same_driver_refl. pose proof same_driver_trans.
  unfold connect. frame.
Qed.

Lemma countDocuments_same_driver m : keeps same_driver (countDocuments m).
Proof.
  destruct same_driver_atoms as (?&?&?&?).
  pose proof same_driver_refl. pose proof same_driver_trans.
  unfold countDocuments. frame; intro w; repeat split.
Qed.

Lemma insertMany_same_driver m d : keeps same_driver (insertMany hydrate m d).
Proof.
  destruct same_driver_atoms as (?&?&?&?).
  pose proof same_driver_refl. pose proof same_driver_trans.
  unfold insertMany. frame; intro w; destruct a; repeat split.
Qed.

Lemma listSampleData_same_driver : keeps same_driver (listSampleData JSON_parse).
Proof.
  destruct same_driver_atoms as (?&?&?&?).
  pose proof same_driver_refl. pose proof same_driver_trans.
  unfold listSampleData, list_one. frame.
Qed.

Lemma checkCountAfterImport_same_driver : keeps same_driver checkCountAfterImport.
Proof.
  destruct same_driver_atoms as (?&?&?&?).
  pose proof same_driver_refl. pose proof same_driver_trans.
  pose proof connect_same_driver. pose proof countDocuments_same_driver.
  unfold checkCountAfterImport, count_one. frame.
Qed.

Lemma insert_one_same_driver c :
  keeps same_driver (insert_one JSON_parse hydrate c).
Proof.
  destruct same_driver_atoms as (?&?&?&?).
  pose proof same_driver_refl. pose proof same_driver_trans.
  assert (forall d, keeps same_driver (insert_switch hydrate c d)).
  { intro d. rewrite insert_switch_table. destruct (model_of c); auto.
    apply insertMany_same_driver. }
  unfold insert_one. frame.
Qed.

Lemma withTransaction_closes s cb w :
  no_exit cb ->
  txn (snd (withTransaction s cb w)) = None /\
  (keeps same_sessions cb ->
   same_sessions w (snd (withTransaction s cb w))) /\
  forall c, fst (withTransaction s cb w) <> Exit c.
Proof.
  intro Hx. unfold withTransaction, bind, try_catch, local_call, round_trip, throw.
  cbn [fst snd].
  set (w0 := set_txn (Some (s, []))
               (set_calls (calls w ++ [BeginTransaction s]) w)).
  pose proof (Hx w0) as Hx0.
  split; [|split].
  - destruct (cb w0) as [[[]|e|c] w1]; cbn.
    + destruct (faults w1 (tick w1)); reflexivity.
    + reflexivity.
    + exfalso. apply (Hx0 c). reflexivity.
  - intro Hs. specialize (Hs w0). unfold same_sessions in *.
    destruct (cb w0) as [[[]|e|c] w1]; cbn in *.
    + destruct (faults w1 (tick w1)); cbn; exact Hs.
    + exact Hs.
    + exact Hs.
  - intro c. destruct (cb w0) as [[[]|e|c'] w1]; cbn.
    + destruct (faults w1 (tick w1)); cbn; discriminate.
    + discriminate.
    + exfalso. apply (Hx0 c'). reflexivity.
Qed.

Lemma resetDatabase_callback_sessions : keeps same_sessions resetDatabase_callback.
Proof.
  assert (Hr : forall w, same_sessions w w) by (intro; split; reflexivity).
  assert (Ht : forall a b c, same_sessions a b -> same_sessions b c ->
                             same_sessions a c).
  { unfold same_sessions. intros a b c [? ?] [? ?]. split; congruence. }
  assert (forall m, keeps same_sessions (deleteMany m None)).
  { intro m. unfold deleteMany, delete_now.
    apply keeps_bind;
      [ exact Ht
      | intro w; split; reflexivity
      | intros a w; cbn; destruct a; split; reflexivity ]. }
  unfold resetDatabase_callback. frame.
Qed.

Lemma startSession_world w s ws :
  startSession w = (Ok s, ws) ->
  s = next_session w /\ live_sessions ws = s :: live_sessions w /\
  txn ws = txn w.
Proof.
  unfold startSession, bind, round_trip.
  destruct (faults w (tick w)); cbn; intro H; inversion H; subst.
  repeat split.
Qed.

Lemma startSession_Throw_world w e ws :
  startSession w = (Throw e, ws) ->
  live_sessions ws = live_sessions w /\ txn ws = txn w.
Proof.
  unfold startSession, bind, round_trip.
  destruct (faults w (tick w)); cbn; intro H; inversion H; subst.
  repeat split.
Qed.

Lemma resetDatabase_settles w :
  sessions_fresh w -> txn w = None ->
  live_sessions (snd (resetDatabase w)) = live_sessions w /\
  txn (snd (resetDatabase w)) = None.
Proof.
  intros Hfresh Htxn. unfold resetDatabase.
  pose proof (startSession_no_exit w) as Hsx.
  destruct (startSession w) as [[s|e|c] ws] eqn:Es.
  - rewrite (bind_run _ _ _ _ _ Es).
    destruct (startSession_world _ _ _ Es) as [Hs [Hl _]].
    destruct (withTransaction_closes s resetDatabase_callback ws
                resetDatabase_callback_no_exit) as [Hnone [Hsess Hx]].
    specialize (Hsess resetDatabase_callback_sessions).
    destruct Hsess as [Hlive _].
    assert (Hrem : remove Nat.eq_dec s (s :: live_sessions w) = live_sessions w).
    { cbn. destruct (Nat.eq_dec s s) as [_|F]; [|congruence].
      apply notin_remove. intro Hin. apply Hfresh in Hin. lia. }
    unfold try_finally, try_catch, bind.
    destruct (withTransaction s resetDatabase_callback ws) as [[[]|e|c] w2];
      cbn [fst snd] in *.
    + unfold endSession, local_call. cbn.
      rewrite Hnone. cbn. rewrite Hlive, Hl.
      split; [exact Hrem | first [reflexivity | exact Hnone]].
    + unfold endSession, local_call. cbn.
      rewrite Hnone. cbn. rewrite Hlive, Hl.
      split; [exact Hrem | first [reflexivity | exact Hnone]].
    + exfalso. apply (Hx c). reflexivity.
  - rewrite (bind_Throw _ _ _ _ _ Es). cbn [snd].
    destruct (startSession_Throw_world _ _ _ Es) as [Hl Ht].
    split; congruence.
  - exfalso. apply (Hsx c). reflexivity.
Qed.

(** X9.  No run leaks a session or leaves a transaction open: started
    with no open transaction, the whole pipeline ends, whatever fails on
    the way, with the live sessions it found and with no open
    transaction. *)
Theorem run_leaves_sessions_as_found argvItems w :
  sessions_fresh w -> txn w = None ->
  live_sessions (snd (main JSON_parse hydrate argvItems w)) = live_sessions w /\
  txn (snd (main JSON_parse hydrate argvItems w)) = None.
Proof.
  intros Hfresh Htxn.
  assert (Hpre : forall w0, same_driver w w0 ->
            live_sessions (snd (resetDatabase w0)) = live_sessions w /\
            txn (snd (resetDatabase w0)) = None).
  { intros w0 (Hl & Hn & Ht).
    destruct (resetDatabase_settles w0) as [A B].
    - intros s Hs. rewrite Hl in Hs. rewrite Hn. apply Hfresh. exact Hs.
    - congruence.
    - split; [congruence | exact B]. }
  assert (Hkeep : forall (A : Type) (m : M A) w0,
            keeps same_driver m ->
            live_sessions w0 = live_sessions w /\ txn w0 = None ->
            live_sessions (snd (m w0)) = live_sessions w /\
            txn (snd (m w0)) = None).
  { intros A m w0 Hm [Hl Ht]. destruct (Hm w0) as (Hl' & _ & Ht').
    split; congruence. }
  set (rest := for_of (selection argvItems) (insert_one JSON_parse hydrate) ;;
               checkCountAfterImport ;;
               console_log (Js.nl ++ "Collections added successfully")).
  assert (Hrest : keeps same_driver rest).
  { destruct same_driver_atoms as (?&?&?&?).
    pose proof same_driver_refl. pose proof same_driver_trans.
    pose proof insert_one_same_driver. pose proof checkCountAfterImport_same_driver.
    unfold rest. frame. }
  remember (main JSON_parse hydrate argvItems w) as r eqn:Er.
  rewrite main_selection in Er. unfold bind in Er.
  pose proof (listSampleData_same_driver w) as H0.
  pose proof (listSampleData_Ok w) as Hok.
  destruct (listSampleData JSON_parse w) as [o w0]. cbn [fst snd] in *. subst o.
  unfold insertCollections, try_finally, try_catch, insertCollections_try, bind
    in Er.
  fold rest in Er.
  pose proof (connect_same_driver "talawa-api" w0) as H1.
  assert (H01 : same_driver w (snd (connect "talawa-api" w0)))
    by (eapply same_driver_trans; eassumption).
  destruct (connect "talawa-api" w0) as [[[]|e|c] wa]; cbn [snd] in H01.
  2:{ subst r. cbn. destruct H01 as (Hl & _ & Ht). split; congruence. }
  2:{ subst r. cbn. destruct H01 as (Hl & _ & Ht). split; congruence. }
  specialize (Hpre wa H01).
  destruct (resetDatabase wa) as [[[]|e|c] wb]; cbn [snd] in Hpre.
  2:{ subst r. cbn. exact Hpre. }
  2:{ subst r. cbn. exact Hpre. }
  pose proof (Hkeep _ rest wb Hrest Hpre) as Hend.
  unfold rest, bind in Hend.
  destruct (for_of (selection argvItems) (insert_one JSON_parse hydrate) wb)
    as [[[]|e|c] w3].
  2:{ subst r. cbn in *. exact Hend. }
  2:{ subst r. cbn in *. exact Hend. }
  destruct (checkCountAfterImport w3) as [[[]|e|c] w4];
    subst r; cbn in *; exact Hend.
Qed.

(** *** What a failed reset leaves *)

Lemma resetDatabase_callback_as_loop w :
  resetDatabase_callback w
  = for_of reset_order (fun m => deleteMany m None) w.
Proof.
  unfold resetDatabase_callback, reset_order. cbn [for_of]. unfold bind, ret.
  repeat match goal with
         | |- context [deleteMany ?m None ?w0] =>
             destruct (deleteMany m None w0) as [[[]|?|?] ?]; try reflexivity
         end.
Qed.

(** Deletions outside a transaction when the round trip of the one at
    position [k] is the first to fail. *)
Lemma for_of_delete_fails ms : forall k w f,
  k < List.length ms ->
  (forall i, i < k -> faults w (tick w + i) = None) ->
  faults w (tick w + k) = Some f ->
  exists w',
    for_of ms (fun m => deleteMany m None) w = (Throw (error f), w') /\
    db w'
    = put (nth k ms Community)
          (skipn (written f)
                 (apply_pending (firstn k ms) (db w) (nth k ms Community)))
          (apply_pending (firstn k ms) (db w)).
Proof.
  induction ms as [|m rest IH]; intros k w f Hk Hq Hf; [cbn in Hk; lia|].
  destruct k as [|k].
  - rewrite Nat.add_0_r in Hf.
    eexists. rewrite for_of_cons. split.
    + apply bind_Throw. unfold deleteMany, delete_now, bind, round_trip.
      rewrite Hf. reflexivity.
    + reflexivity.
  - assert (H0 : faults w (tick w) = None).
    { rewrite <- (Nat.add_0_r (tick w)). apply Hq. lia. }
    set (w1 := set_db (put m [] (db w))
                 (set_calls (calls w ++ [DeleteMany m None])
                    (set_tick (S (tick w)) w))).
    assert (E : deleteMany m None w = (Ok tt, w1)).
    { unfold deleteMany, delete_now, bind, round_trip. rewrite H0. reflexivity. }
    destruct (IH k w1 f) as [w' [E' Hd]].
    + cbn in Hk. lia.
    + intros i Hi. cbn [w1 faults tick set_db set_calls set_tick].
      replace (S (tick w) + i) with (tick w + S i) by lia. apply Hq. lia.
    + cbn [w1 faults tick set_db set_calls set_tick].
      replace (S (tick w) + k) with (tick w + S k) by lia. exact Hf.
    + exists w'. rewrite for_of_cons, (bind_run _ _ _ _ _ E).
      split; [exact E'|]. exact Hd.
Qed.

Lemma startSession_run w :
  faults w (tick w) = None ->
  exists ws,
    startSession w = (Ok (next_session w), ws) /\
    tick ws = S (tick w) /\ faults ws = faults w /\ db ws = db w /\
    calls ws = (calls w ++ [StartSession])%list.
Proof.
  intro H. unfold startSession, bind, round_trip. rewrite H.
  eexists. repeat split.
Qed.

(** The outcome and the store of a reset are those of its transaction. *)
Lemma resetDatabase_of_transaction w s ws :
  startSession w = (Ok s, ws) ->
  fst (resetDatabase w) = fst (withTransaction s resetDatabase_callback ws) /\
  db (snd (resetDatabase w))
  = db (snd (withTransaction s resetDatabase_callback ws)) /\
  calls (snd (resetDatabase w))
  = (calls (snd (withTransaction s resetDatabase_callback ws))
     ++ [EndSession s])%list.
Proof.
  intro H. unfold resetDatabase. rewrite (bind_run _ _ _ _ _ H).
  pose proof (withTransaction_no_exit s _ resetDatabase_callback_no_exit ws)
    as Hx.
  unfold try_finally, try_catch, bind.
  destruct (withTransaction s resetDatabase_callback ws) as [[[]|e|c] w2];
    cbn [fst snd] in *.
  - unfold console_log, endSession, bind, local_call. cbn.
    destruct (owns s (txn w2)); repeat split.
  - unfold console_error, throw, endSession, bind, local_call. cbn.
    destruct (owns s (txn w2)); repeat split.
  - exfalso. apply (Hx c). reflexivity.
Qed.

(** X10.  When the deletion at position [k] of the reset is the first
    round trip to fail, the reset throws that error and the store is left
    half reset: the collections before position [k] are empty, the one at
    position [k] has lost the documents removed before the error, and the
    collections after it hold what they held. *)
Theorem failed_deletion_leaves_partial_reset w k f :
  k < 10 ->
  faults w (tick w) = None ->
  (forall i, i < k -> faults w (S (tick w) + i) = None) ->
  faults w (S (tick w) + k) = Some f ->
  fst (resetDatabase w) = Throw (error f) /\
  (forall m, In m (firstn k reset_order) -> db (snd (resetDatabase w)) m = []) /\
  db (snd (resetDatabase w)) (nth k reset_order Community)
  = skipn (written f) (db w (nth k reset_order Community)) /\
  (forall m, In m (skipn (S k) reset_order) ->
             db (snd (resetDatabase w)) m = db w m).
Proof.
  intros Hk H0 Hq Hf.
  destruct (startSession_run w H0) as [ws [Es [Ht [Hfs [Hd Hc]]]]].
  destruct (resetDatabase_of_transaction _ _ _ Es) as [R1 [R2 _]].
  pose proof (withTransaction_cases (next_session w) resetDatabase_callback ws)
    as K.
  set (w0 := set_txn (Some (next_session w, []))
               (set_calls (calls ws ++ [BeginTransaction (next_session w)]) ws))
    in K.
  destruct (for_of_delete_fails reset_order k w0 f) as [w1 [E1 Hdb]].
  - exact Hk.
  - intros i Hi. cbn [w0 faults tick set_txn set_calls]. rewrite Hfs, Ht.
    apply Hq. exact Hi.
  - cbn [w0 faults tick set_txn set_calls]. rewrite Hfs, Ht. exact Hf.
  - rewrite resetDatabase_callback_as_loop, E1 in K. destruct K as [K1 K2].
    rewrite R1, R2, K1, K2, Hdb.
    cbn [w0 db set_txn set_calls]. rewrite Hd.
    split; [reflexivity|].
    do 10 (destruct k as [|k];
           [ cbn; repeat split;
             [ intros m Hin;
               repeat (destruct Hin as [<-|Hin]; [reflexivity|]); contradiction
             | intros m Hin;
               repeat (destruct Hin as [<-|Hin]; [reflexivity|]); contradiction ]
           | ]).
    lia.
Qed.

(** *** The transaction of the reset *)

Lemma deleteMany_None_run m w :
  deleteMany m None w
  = delete_now m (faults w (tick w))
      (set_calls (calls w ++ [DeleteMany m None]) (set_tick (S (tick w)) w)).
Proof. reflexivity. Qed.

(** Deletions outside a transaction, in any world: either all return, or
    the one at some position is the first to fail and ends the loop. *)
Lemma for_of_delete_cases ms : forall w,
  (exists w',
     for_of ms (fun m => deleteMany m None) w = (Ok tt, w') /\
     calls w' = (calls w ++ map (fun m => DeleteMany m None) ms)%list /\
     txn w' = txn w)
  \/
  (exists k e w',
     k < List.length ms /\
     for_of ms (fun m => deleteMany m None) w = (Throw e, w') /\
     calls w'
     = (calls w ++ map (fun m => DeleteMany m None) (firstn (S k) ms))%list).
Proof.
  induction ms as [|m rest IH]; intro w.
  - left. exists w. cbn. rewrite app_nil_r. repeat split.
  - rewrite for_of_cons. unfold bind. rewrite deleteMany_None_run.
    unfold delete_now.
    destruct (faults w (tick w)) as [f|].
    + right. exists 0, (error f). eexists. split; [cbn; lia|].
      split; reflexivity.
    + match goal with
      | |- context [for_of rest _ ?w1] =>
          destruct (IH w1) as [[w' [E [C T]]] | [k [e [w' [Hk [E C]]]]]];
            rewrite E
      end.
      * left. exists w'. split; [reflexivity|]. split.
        -- rewrite C. cbn. rewrite <- app_assoc. reflexivity.
        -- exact T.
      * right. exists (S k), e, w'. split; [cbn; lia|].
        split; [reflexivity|]. rewrite C. cbn. rewrite <- app_assoc.
        reflexivity.
Qed.

(** What deletions outside a transaction return and leave in the store
    depends on the store, the round-trip number and the failures only:
    an open transaction makes no difference to them. *)
Lemma for_of_delete_agree ms : forall w v,
  db w = db v -> tick w = tick v -> faults w = faults v ->
  fst (for_of ms (fun m => deleteMany m None) w)
  = fst (for_of ms (fun m => deleteMany m None) v) /\
  db (snd (for_of ms (fun m => deleteMany m None) w))
  = db (snd (for_of ms (fun m => deleteMany m None) v)).
Proof.
  induction ms as [|m rest IH]; intros w v Hd Ht Hf.
  - cbn. split; [reflexivity | exact Hd].
  - rewrite !for_of_cons. unfold bind. rewrite !deleteMany_None_run.
    unfold delete_now.
    rewrite Hf, Ht.
    destruct (faults v (tick v)) as [f|].
    + cbn. rewrite Hd. split; reflexivity.
    + apply IH; cbn; congruence.
Qed.

Lemma withTransaction_trace s cb w :
  match cb (set_txn (Some (s, []))
              (set_calls (calls w ++ [BeginTransaction s]) w)) with
  | (Ok _, w1) =>
      match faults w1 (tick w1) with
      | Some f =>
          calls (snd (withTransaction s cb w))
          = (calls w1 ++ [CommitTransaction s; AbortTransaction s])%list
      | None =>
          calls (snd (withTransaction s cb w))
          = (calls w1 ++ [CommitTransaction s])%list
      end
  | (Throw e, w1) =>
      calls (snd (withTransaction s cb w))
      = (calls w1 ++ [AbortTransaction s])%list
  | (Exit c, w1) => True
  end.
Proof.
  unfold withTransaction, bind, try_catch, local_call, round_trip, throw.
  cbn [fst snd].
  destruct (cb (set_txn (Some (s, []))
                  (set_calls (calls w ++ [BeginTransaction s]) w)))
    as [[[]|e|c] w1]; cbn.
  - destruct (faults w1 (tick w1)); cbn; [|reflexivity].
    rewrite <- app_assoc. reflexivity.
  - reflexivity.
  - exact I.
Qed.

Lemma resetDatabase_releases w s ws :
  startSession w = (Ok s, ws) ->
  ~ In s (live_sessions (snd (resetDatabase w))) /\
  txn (snd (resetDatabase w)) = None.
Proof.
  intro H. unfold resetDatabase. rewrite (bind_run _ _ _ _ _ H).
  destruct (withTransaction_closes s resetDatabase_callback ws
              resetDatabase_callback_no_exit) as [Hnone [_ Hx]].
  unfold try_finally, try_catch, bind.
  destruct (withTransaction s resetDatabase_callback ws) as [[[]|e|c] w2];
    cbn [fst snd] in *.
  - unfold console_log.
    match goal with
    | |- context [endSession s ?w3] =>
        pose proof (endSession_Ok s w3) as [E L];
        assert (T : txn (snd (endSession s w3)) = None)
          by (unfold endSession, bind, local_call; cbn; rewrite Hnone; cbn;
              exact Hnone);
        destruct (endSession s w3) as [[[]|e|c] w4]; cbn [fst snd] in *;
          try discriminate
    end.
    split; assumption.
  - unfold console_error, throw.
    match goal with
    | |- context [endSession s ?w3] =>
        pose proof (endSession_Ok s w3) as [E L];
        assert (T : txn (snd (endSession s w3)) = None)
          by (unfold endSession, bind, local_call; cbn; rewrite Hnone; cbn;
              exact Hnone);
        destruct (endSession s w3) as [[[]|e'|c] w4]; cbn [fst snd] in *;
          try discriminate
    end.
    split; assumption.
  - exfalso. apply (Hx c). reflexivity.
Qed.

(** C7.  The transaction of the reset wraps the deletions in control
    flow only.  Once [startSession] has returned the session, which is
    then live, the reset begins one transaction on it, issues the
    deletions in the order of the source, closes the transaction and ends
    the session last: with a commit after ten deletions that returned
    (and an abort after it when the commit is refused), with an abort
    after the first deletion that failed, whose error is the error the
    caller gets.  On every path the session is no longer live afterwards
    and no transaction is left open.  But every deletion is issued
    without the session and none joins the transaction: the callback
    leaves the open transaction as it finds it, and the store after the
    reset, committed or aborted, is the store the deletions leave when
    they run outside any transaction, so that the commit applies nothing
    and the abort undoes nothing. *)
Theorem resetDatabase_deletions_outside_transaction w s w1 :
  startSession w = (Ok s, w1) ->
  In s (live_sessions w1) /\
  (exists k closing,
     calls (snd (resetDatabase w))
     = (calls w ++ reset_trace s k closing)%list /\
     ((fst (resetDatabase_callback w1) = Ok tt /\ k = 10 /\
       ((closing = [CommitTransaction s] /\ fst (resetDatabase w) = Ok tt) \/
        (closing = [CommitTransaction s; AbortTransaction s] /\
         exists e, fst (resetDatabase w) = Throw e)))
      \/
      (exists e, fst (resetDatabase_callback w1) = Throw e /\
                 fst (resetDatabase w) = Throw e /\
                 1 <= k <= 10 /\ closing = [AbortTransaction s]))) /\
  (forall v, txn (snd (resetDatabase_callback v)) = txn v) /\
  db (snd (resetDatabase w)) = db (snd (resetDatabase_callback w1)) /\
  fst (resetDatabase w) = fst (withTransaction s resetDatabase_callback w1) /\
  ~ In s (live_sessions (snd (resetDatabase w))) /\
  txn (snd (resetDatabase w)) = None.
Proof.
  intro H.
  destruct (startSession_Ok_inv _ _ _ H) as [_ [Hc1 Hlive]].
  destruct (resetDatabase_of_transaction _ _ _ H) as [R1 [R2 R3]].
  destruct (resetDatabase_releases _ _ _ H) as [L1 L2].
  pose proof (withTransaction_cases s resetDatabase_callback w1) as K.
  pose proof (withTransaction_trace s resetDatabase_callback w1) as T.
  set (w0 := set_txn (Some (s, []))
               (set_calls (calls w1 ++ [BeginTransaction s]) w1)) in K, T.
  destruct (for_of_delete_agree reset_order w0 w1 eq_refl eq_refl eq_refl)
    as [A1 A2].
  rewrite <- !resetDatabase_callback_as_loop in A1, A2.
  assert (Htrace : forall k closing,
            calls (snd (withTransaction s resetDatabase_callback w1))
            = (calls w0
                 ++ map (fun m => DeleteMany m None) (firstn k reset_order)
                 ++ closing)%list ->
            calls (snd (resetDatabase w))
            = (calls w ++ reset_trace s k closing)%list).
  { intros k closing E. rewrite R3, E. cbn [w0 calls set_txn set_calls].
    rewrite Hc1. unfold reset_trace. rewrite <- !app_assoc. reflexivity. }
  split; [exact Hlive|].
  split; [|split; [|split; [|split; [exact R1|split; assumption]]]].
  - destruct (for_of_delete_cases reset_order w0)
      as [[w' [E [C Tx]]] | [k [e [w' [Hk [E C]]]]]];
      rewrite <- resetDatabase_callback_as_loop in E;
      rewrite E in K, T, A1; cbn [fst] in A1.
    + exists 10. destruct (faults w' (tick w')) as [f|]; destruct K as [K1 K2].
      * exists [CommitTransaction s; AbortTransaction s]. split.
        -- apply Htrace. rewrite T, C. rewrite <- app_assoc. reflexivity.
        -- left. split; [symmetry; exact A1|]. split; [reflexivity|].
           right. split; [reflexivity|]. exists (error f).
           rewrite R1. exact K1.
      * exists [CommitTransaction s]. split.
        -- apply Htrace. rewrite T, C. rewrite <- app_assoc. reflexivity.
        -- left. split; [symmetry; exact A1|]. split; [reflexivity|].
           left. split; [reflexivity|]. rewrite R1. exact K1.
    + destruct K as [K1 K2]. exists (S k), [AbortTransaction s]. split.
      * apply Htrace. rewrite T, C. rewrite <- app_assoc. reflexivity.
      * right. exists e. split; [symmetry; exact A1|].
        split; [rewrite R1; exact K1|]. cbn in Hk. split; [lia | reflexivity].
  - intro v. exact (resetDatabase_callback_txn v).
  - rewrite R2, <- A2.
    pose proof (resetDatabase_callback_txn w0) as Tx.
    destruct (resetDatabase_callback w0) as [[[]|e|c] w'] eqn:E; cbn [snd] in *.
    + unfold same_txn in Tx.
      destruct (faults w' (tick w')); destruct K as [_ K2]; rewrite K2;
        [reflexivity|].
      rewrite Tx. reflexivity.
    + destruct K as [_ K2]. exact K2.
    + exfalso. apply (resetDatabase_callback_no_exit w0 c). rewrite E.
      reflexivity.
Qed.

(** *** The round trips of a run, in order *)

Lemma connect_Ok_inv n w u wa :
  connect n w = (Ok u, wa) ->
  calls wa = (calls w ++ [Connect n])%list /\
  next_session wa = next_session w /\ console wa = console w /\
  db wa = db w /\ tick wa = S (tick w).
Proof.
  unfold connect, bind, round_trip.
  destruct (faults w (tick w)); cbn; intro H; inversion H; subst.
  repeat split.
Qed.

Lemma deleteMany_None_Ok_calls m w u w' :
  deleteMany m None w = (Ok u, w') ->
  calls w' = (calls w ++ [DeleteMany m None])%list.
Proof.
  unfold deleteMany, delete_now, bind, round_trip.
  destruct (faults w (tick w)); cbn; intro H; inversion H; subst; reflexivity.
Qed.

Lemma for_of_delete_Ok_calls ms : forall w w',
  for_of ms (fun m => deleteMany m None) w = (Ok tt, w') ->
  calls w' = (calls w ++ map (fun m => DeleteMany m None) ms)%list.
Proof.
  induction ms as [|m rest IH]; intros w w' H.
  - inversion H; subst. cbn. symmetry. apply app_nil_r.
  - rewrite for_of_cons in H. apply bind_Ok in H.
    destruct H as [u [w1 [E H]]].
    apply deleteMany_None_Ok_calls in E. apply IH in H.
    rewrite H, E. cbn [map]. rewrite <- app_assoc. reflexivity.
Qed.

Lemma withTransaction_Ok_calls s cb w w' :
  withTransaction s cb w = (Ok tt, w') ->
  exists w1,
    cb (set_txn (Some (s, []))
          (set_calls (calls w ++ [BeginTransaction s]) w)) = (Ok tt, w1) /\
    calls w' = (calls w1 ++ [CommitTransaction s])%list.
Proof.
  unfold withTransaction. intro H.
  apply bind_Ok in H. destruct H as [[] [w1 [E1 H]]].
  apply bind_Ok in H. destruct H as [[] [w2 [E2 H]]].
  inversion E1; subst; clear E1. inversion E2; subst; clear E2.
  apply try_catch_Ok in H. destruct H as [H | [e [w3 [_ H]]]].
  - apply bind_Ok in H. destruct H as [[] [w3 [E3 H]]].
    apply bind_Ok in H. destruct H as [f [w4 [E4 H]]].
    inversion E4; subst; clear E4.
    destruct (faults w3 (tick w3)); [discriminate|].
    inversion H; subst; clear H.
    exists w3. split; [exact E3 | reflexivity].
  - unfold bind, local_call, throw in H. cbn in H. discriminate.
Qed.

(** A reset that returns has made exactly the calls of [reset_calls]. *)
Lemma resetDatabase_Ok_calls w w' :
  resetDatabase w = (Ok tt, w') ->
  calls w' = (calls w ++ reset_calls (next_session w))%list.
Proof.
  intro H.
  assert (Hs : exists s ws, startSession w = (Ok s, ws)).
  { unfold resetDatabase in H. apply bind_Ok in H.
    destruct H as [s [ws [E _]]]. eauto. }
  destruct Hs as [s [ws Es]].
  destruct (startSession_Ok_inv _ _ _ Es) as [Hs [Hc _]].
  destruct (resetDatabase_of_transaction _ _ _ Es) as [R1 [_ R3]].
  rewrite H in R1, R3. cbn [fst snd] in R1, R3.
  destruct (withTransaction s resetDatabase_callback ws) as [o w2] eqn:T.
  cbn [fst snd] in R1, R3. subst o.
  apply withTransaction_Ok_calls in T. destruct T as [w1 [Ecb Hc2]].
  rewrite resetDatabase_callback_as_loop in Ecb.
  apply for_of_delete_Ok_calls in Ecb. cbn [calls set_txn set_calls] in Ecb.
  rewrite R3, Hc2, Ecb, Hc, <- Hs. unfold reset_calls.
  rewrite <- !app_assoc. reflexivity.
Qed.

Lemma insertMany_Ok_calls m d w w' :
  insertMany hydrate m d w = (Ok tt, w') ->
  calls w' = (calls w ++ [InsertMany m d])%list.
Proof.
  unfold insertMany, bind, round_trip.
  destruct (faults w (tick w)); cbn; intro H; inversion H; subst; reflexivity.
Qed.

Lemma for_of_insert_Ok_calls names : forall w w',
  for_of names (insert_one JSON_parse hydrate) w = (Ok tt, w') ->
  calls w' = (calls w ++ insert_calls JSON_parse (fs w) names)%list.
Proof.
  induction names as [|c rest IH]; intros w w' H.
  - inversion H; subst. cbn. symmetry. apply app_nil_r.
  - rewrite for_of_cons in H. apply bind_Ok in H.
    destruct H as [[] [w1 [E H]]].
    pose proof (insert_one_env c w) as [Hfs _]. rewrite E in Hfs. cbn in Hfs.
    apply IH in H. rewrite H, Hfs. unfold insert_calls. cbn [flat_map].
    rewrite app_assoc. f_equal.
    unfold insert_one in E.
    apply bind_Ok in E. destruct E as [data [wa [E1 E]]].
    unfold fs_readFile in E1. apply await_Ok in E1. destruct E1 as [E1 ->].
    apply bind_Ok in E. destruct E as [docs [wb [E2 E]]].
    apply await_Ok in E2. destruct E2 as [E2 ->].
    apply bind_Ok in E. destruct E as [[] [wc [E3 E4]]].
    inversion E4; subst. cbn [calls set_console].
    unfold fixture. rewrite E1, E2.
    rewrite insert_switch_table in E3. destruct (model_of c) as [m|].
    + apply (insertMany_Ok_calls _ _ _ _ E3).
    + inversion E3; subst. cbn. symmetry. apply app_nil_r.
Qed.

Lemma for_of_count_calls entries : forall w,
  quiet w ->
  calls (snd (for_of entries count_one w))
  = (calls w ++ map (fun e => CountDocuments (snd e)) entries)%list.
Proof.
  induction entries as [|[name model] rest IH]; intros w Hq.
  - cbn. symmetry. apply app_nil_r.
  - set (w1 := set_console
                 (console w
                  ++ [stdout (table_row name
                                (Js.toString_nat (List.length (db w model))))])
                 (set_calls (calls w ++ [CountDocuments model])
                    (set_tick (S (tick w)) w))).
    assert (E : count_one (name, model) w = (Ok tt, w1)).
    { unfold count_one, countDocuments, bind, round_trip. rewrite (Hq (tick w)).
      reflexivity. }
    rewrite for_of_cons, (bind_run _ _ _ _ _ E), (IH w1 Hq).
    cbn [w1 calls set_console set_calls set_tick map snd].
    rewrite <- app_assoc. reflexivity.
Qed.

Lemma checkCountAfterImport_quiet_calls w :
  quiet w ->
  calls (snd (checkCountAfterImport w)) = (calls w ++ count_calls)%list.
Proof.
  intro Hq. unfold checkCountAfterImport, try_catch.
  assert (E1 : connect "talawa-api" w
               = (Ok tt, set_calls (calls w ++ [Connect "talawa-api"])
                           (set_tick (S (tick w)) w))).
  { unfold connect, bind, round_trip. rewrite (Hq (tick w)). reflexivity. }
  rewrite (bind_run _ _ _ _ _ E1).
  rewrite (bind_run _ _ _ _ _ (console_log_run _ _)).
  rewrite (bind_run _ _ _ _ _ (console_log_run _ _)).
  match goal with
  | |- context [for_of count_collections count_one ?w1] =>
      pose proof (for_of_count_calls count_collections w1 Hq) as K;
      destruct (for_of count_collections count_one w1) as [[[]|e|c] w2]
  end; cbn [snd] in K |- *; cbn [console_error snd calls set_console];
    rewrite K; cbn [calls set_console set_calls set_tick];
    unfold count_calls; rewrite <- app_assoc; reflexivity.
Qed.

(** X12.  The round trips of a load that completes, when no round trip
    fails, are exactly, in this order: the connection; the session, the
    transaction and the ten deletions of the reset, its commit and the
    end of the session; one bulk insert for each listed name the switch
    knows, in list order, with the parsed content of its fixture; the
    second connection and the nine counts. *)
Theorem clean_load_round_trips names w w' :
  quiet w ->
  insertCollections_try JSON_parse hydrate names w = (Ok tt, w') ->
  calls w'
  = (calls w
     ++ Connect "talawa-api" :: reset_calls (next_session w)
     ++ insert_calls JSON_parse (fs w) names
     ++ count_calls)%list.
Proof.
  intros Hq H. unfold insertCollections_try in H.
  apply bind_Ok in H. destruct H as [[] [wa [E1 H]]].
  apply bind_Ok in H. destruct H as [[] [wb [E2 H]]].
  apply bind_Ok in H. destruct H as [[] [wc [E3 H]]].
  apply bind_Ok in H. destruct H as [[] [wd [E4 H]]].
  inversion H; subst; clear H. cbn [calls set_console].
  pose proof (connect_env "talawa-api" w) as Ha. rewrite E1 in Ha.
  pose proof (resetDatabase_env wa) as Hb. rewrite E2 in Hb.
  pose proof (keeps_for_of same_env same_env_refl same_env_trans names
                (insert_one JSON_parse hydrate) insert_one_env wb) as Hc.
  rewrite E3 in Hc. cbn [snd] in Ha, Hb, Hc.
  assert (Hqc : quiet wc).
  { eapply quiet_same_env; [exact Hc|].
    eapply quiet_same_env; [exact Hb|].
    eapply quiet_same_env; [exact Ha | exact Hq]. }
  pose proof (checkCountAfterImport_quiet_calls wc Hqc) as K4.
  rewrite E4 in K4. cbn [snd] in K4.
  destruct (connect_Ok_inv _ _ _ _ E1) as [K1 [Hn _]].
  pose proof (resetDatabase_Ok_calls _ _ E2) as K2.
  pose proof (for_of_insert_Ok_calls _ _ _ E3) as K3.
  destruct Ha as [Fa _]. destruct Hb as [Fb _].
  rewrite K4, K3, K2, K1, Hn, Fb, Fa.
  rewrite <- !app_assoc. reflexivity.
Qed.

(** *** A count that fails *)

Lemma for_of_count_fails entries : forall k w f,
  k < List.length entries ->
  (forall i, i < k -> faults w (tick w + i) = None) ->
  faults w (tick w + k) = Some f ->
  exists w',
    for_of entries count_one w = (Throw (error f), w') /\
    console w' = (console w ++ count_rows (db w) (firstn k entries))%list.
Proof.
  induction entries as [|[name model] rest IH]; intros k w f Hk Hq Hf;
    [cbn in Hk; lia|].
  destruct k as [|k].
  - rewrite Nat.add_0_r in Hf. eexists. rewrite for_of_cons. split.
    + apply bind_Throw. unfold count_one. apply bind_Throw.
      unfold countDocuments, bind, round_trip. rewrite Hf. reflexivity.
    + cbn. symmetry. apply app_nil_r.
  - assert (H0 : faults w (tick w) = None).
    { rewrite <- (Nat.add_0_r (tick w)). apply Hq. lia. }
    set (w1 := set_console
                 (console w
                  ++ [stdout (table_row name
                                (Js.toString_nat (List.length (db w model))))])
                 (set_calls (calls w ++ [CountDocuments model])
                    (set_tick (S (tick w)) w))).
    assert (E : count_one (name, model) w = (Ok tt, w1)).
    { unfold count_one, countDocuments, bind, round_trip. rewrite H0.
      reflexivity. }
    destruct (IH k w1 f) as [w' [E' Hc]].
    + cbn in Hk. lia.
    + intros i Hi. cbn [w1 faults tick set_console set_calls set_tick].
      replace (S (tick w) + i) with (tick w + S i) by lia. apply Hq. lia.
    + cbn [w1 faults tick set_console set_calls set_tick].
      replace (S (tick w) + k) with (tick w + S k) by lia. exact Hf.
    + exists w'. rewrite for_of_cons, (bind_run _ _ _ _ _ E).
      split; [exact E'|]. rewrite Hc.
      cbn [w1 console db set_console set_calls set_tick firstn count_rows map].
      rewrite <- app_assoc. reflexivity.
Qed.

(** X13.  When the count at position [k] of the check is the first round
    trip of the check to fail, the report stops there: the two heading
    lines and the rows of the collections before position [k] are on the
    console, followed by the error line, and the check still returns
    normally. *)
Theorem failed_count_truncates_report w k f :
  k < 9 ->
  faults w (tick w) = None ->
  (forall i, i < k -> faults w (S (tick w) + i) = None) ->
  faults w (S (tick w) + k) = Some f ->
  fst (checkCountAfterImport w) = Ok tt /\
  console (snd (checkCountAfterImport w))
  = (console w
     ++ [ stdout (Js.nl ++ "Document Counts After Import:" ++ Js.nl);
          stdout (table_header "| Collection Name") ]
     ++ count_rows (db w) (firstn k count_collections)
     ++ [stderr (Js.two_args Js.red "Error checking document count: ")
                (error f)])%list.
Proof.
  intros Hk H0 Hq Hf. split; [apply checkCountAfterImport_Ok|].
  unfold checkCountAfterImport, try_catch.
  assert (E1 : connect "talawa-api" w
               = (Ok tt, set_calls (calls w ++ [Connect "talawa-api"])
                           (set_tick (S (tick w)) w))).
  { unfold connect, bind, round_trip. rewrite H0. reflexivity. }
  rewrite (bind_run _ _ _ _ _ E1).
  rewrite (bind_run _ _ _ _ _ (console_log_run _ _)).
  rewrite (bind_run _ _ _ _ _ (console_log_run _ _)).
  match goal with
  | |- context [for_of count_collections count_one ?w1] =>
      destruct (for_of_count_fails count_collections k w1 f) as [w' [E Hc]]
  end.
  - exact Hk.
  - intros i Hi. cbn. apply Hq. exact Hi.
  - cbn. exact Hf.
  - rewrite E. cbn [console_error snd console set_console].
    rewrite Hc. cbn [console db set_console set_calls set_tick].
    rewrite <- !app_assoc. reflexivity.
Qed.

(** *** The console of a load *)

Lemma insertMany_Ok_console m d w w' :
  insertMany hydrate m d w = (Ok tt, w') -> console w' = console w.
Proof.
  unfold insertMany, bind, round_trip.
  destruct (faults w (tick w)); cbn; intro H; inversion H; subst; reflexivity.
Qed.

Lemma for_of_insert_Ok_console names : forall w w',
  for_of names (insert_one JSON_parse hydrate) w = (Ok tt, w') ->
  console w' = (console w ++ load_lines names)%list.
Proof.
  induction names as [|c rest IH]; intros w w' H.
  - inversion H; subst. cbn. symmetry. apply app_nil_r.
  - rewrite for_of_cons in H. apply bind_Ok in H.
    destruct H as [[] [w1 [E H]]].
    apply IH in H. rewrite H. unfold load_lines. cbn [flat_map].
    rewrite app_assoc. f_equal.
    unfold insert_one in E.
    apply bind_Ok in E. destruct E as [data [wa [E1 E]]].
    unfold fs_readFile in E1. apply await_Ok in E1. destruct E1 as [_ ->].
    apply bind_Ok in E. destruct E as [docs [wb [E2 E]]].
    apply await_Ok in E2. destruct E2 as [_ ->].
    apply bind_Ok in E. destruct E as [[] [wc [E3 E4]]].
    inversion E4; subst. cbn [console set_console].
    rewrite insert_switch_table in E3. destruct (model_of c) as [m|].
    + rewrite (insertMany_Ok_console _ _ _ _ E3). reflexivity.
    + inversion E3; subst. cbn [console set_console].
      rewrite <- app_assoc. reflexivity.
Qed.

Lemma resetDatabase_Ok_console w w' :
  resetDatabase w = (Ok tt, w') ->
  console w' = (console w ++ [stdout "Database reset completed."])%list.
Proof.
  set (R := fun a b : World => console b = console a).
  assert (Hr : forall a, R a a) by reflexivity.
  assert (Ht : forall a b c, R a b -> R b c -> R a c)
    by (unfold R; intros; congruence).
  assert (Hrt : forall c, keeps R (round_trip c)) by (intros c a; reflexivity).
  assert (Hlc : forall c, keeps R (local_call c)) by (intros c a; reflexivity).
  assert (Hss : keeps R startSession).
  { unfold startSession. apply keeps_bind; auto.
    intros [f|]; [apply keeps_throw; exact Hr | intro a; reflexivity]. }
  assert (Hdel : forall m, keeps R (deleteMany m None)).
  { intro m. unfold deleteMany, delete_now. apply keeps_bind; auto.
    intros a w0. cbn. destruct a; reflexivity. }
  assert (Hcb : keeps R resetDatabase_callback).
  { unfold resetDatabase_callback.
    repeat (apply keeps_bind; [exact Ht | apply Hdel | intros _]).
    apply Hdel. }
  assert (Htx : forall s, keeps R (withTransaction s resetDatabase_callback)).
  { intro s. unfold withTransaction.
    apply keeps_bind; [exact Ht | apply Hlc | intros _].
    apply keeps_bind; [exact Ht | intro a; reflexivity | intros _].
    apply keeps_try_catch; [exact Ht | | ].
    - apply keeps_bind; [exact Ht | exact Hcb | intros _].
      apply keeps_bind; [exact Ht | apply Hrt | ].
      intros [f|]; [apply keeps_throw; exact Hr | intro a; reflexivity].
    - intro e.
      apply keeps_bind; [exact Ht | apply Hlc | intros _].
      apply keeps_bind; [exact Ht | intro a; reflexivity | intros _].
      apply keeps_throw. exact Hr. }
  assert (Hend : forall s, keeps R (endSession s)).
  { intros s a. unfold endSession, bind, local_call. cbn.
    destruct (owns s (txn a)); reflexivity. }
  intro H. unfold resetDatabase in H.
  apply bind_Ok in H. destruct H as [s [ws [Es H]]].
  apply try_finally_Ok in H. destruct H as [w2 [u [H Hfin]]].
  apply try_catch_Ok in H. destruct H as [H | [e [w3 [_ H]]]].
  - apply bind_Ok in H. destruct H as [[] [w3 [Etx Elog]]].
    inversion Elog; subst w2.
    pose proof (Hend s (set_console
                          (console w3 ++ [stdout "Database reset completed."])
                          w3)) as K3.
    rewrite Hfin in K3.
    pose proof (Htx s ws) as K2. rewrite Etx in K2.
    pose proof (Hss w) as K1. rewrite Es in K1.
    unfold R in *. cbn [snd console set_console] in *.
    rewrite K3, K2, K1. reflexivity.
  - unfold bind, console_error, throw in H. cbn in H. discriminate.
Qed.

(** X16.  A load that completes with no failing round trip prints
    exactly: the line of the completed reset; for each listed name, in
    order, its confirmation, preceded by the complaint when the switch
    does not know the name; the count report of the store the load
    leaves; and the closing message. *)
Theorem clean_load_console names w w' :
  quiet w ->
  insertCollections_try JSON_parse hydrate names w = (Ok tt, w') ->
  console w'
  = (console w
     ++ [stdout "Database reset completed."]
     ++ load_lines names
     ++ count_report (db w')
     ++ [stdout (Js.nl ++ "Collections added successfully")])%list.
Proof.
  intros Hq H. unfold insertCollections_try in H.
  apply bind_Ok in H. destruct H as [[] [wa [E1 H]]].
  apply bind_Ok in H. destruct H as [[] [wb [E2 H]]].
  apply bind_Ok in H. destruct H as [[] [wc [E3 H]]].
  apply bind_Ok in H. destruct H as [[] [wd [E4 H]]].
  inversion H; subst; clear H. cbn [console db set_console].
  pose proof (connect_env "talawa-api" w) as Ha. rewrite E1 in Ha.
  pose proof (resetDatabase_env wa) as Hb. rewrite E2 in Hb.
  pose proof (keeps_for_of same_env same_env_refl same_env_trans names
                (insert_one JSON_parse hydrate) insert_one_env wb) as Hc.
  rewrite E3 in Hc. cbn [snd] in Ha, Hb, Hc.
  assert (Hqc : quiet wc).
  { eapply quiet_same_env; [exact Hc|].
    eapply quiet_same_env; [exact Hb|].
    eapply quiet_same_env; [exact Ha | exact Hq]. }
  destruct (checkCountAfterImport_quiet wc Hqc) as [wd' [E4' [Hd4 Hc4]]].
  rewrite E4 in E4'. inversion E4'; subst wd'.
  destruct (connect_Ok_inv _ _ _ _ E1) as [_ [_ [K1 _]]].
  pose proof (resetDatabase_Ok_console _ _ E2) as K2.
  pose proof (for_of_insert_Ok_console _ _ _ E3) as K3.
  rewrite Hc4, Hd4, K3, K2, K1. rewrite <- !app_assoc. reflexivity.
Qed.

End LoaderFacts.

(** *** The list of names and the width of the tables *)

Lemma split_comma_nonempty s : Js.split_comma s <> [].
Proof.
  destruct s as [|c rest]; cbn; [discriminate|].
  destruct (Ascii.eqb c ","); [discriminate|].
  destruct (Js.split_comma rest); discriminate.
Qed.

Lemma split_comma_concat s : String.concat "," (Js.split_comma s) = s.
Proof.
  induction s as [|c rest IH]; [reflexivity|].
  cbn [Js.split_comma].
  pose proof (split_comma_nonempty rest) as Hn.
  destruct (Ascii.eqb_spec c ",") as [->|Hne].
  - destruct (Js.split_comma rest) as [|h t]; [congruence|].
    change (String.concat "," ("" :: h :: t))
      with ("" ++ "," ++ String.concat "," (h :: t)).
    rewrite IH. reflexivity.
  - destruct (Js.split_comma rest) as [|h t]; [congruence|].
    destruct t as [|h' t'].
    + change (String.concat "," [h]) with h in IH.
      change (String.concat "," [String c h]) with (String c h).
      rewrite IH. reflexivity.
    + change (String.concat "," (h :: h' :: t'))
        with (h ++ "," ++ String.concat "," (h' :: t')) in IH.
      change (String.concat "," (String c h :: h' :: t'))
        with (String c (h ++ "," ++ String.concat "," (h' :: t'))).
      rewrite IH. reflexivity.
Qed.

Lemma split_comma_pieces s :
  forall piece, In piece (Js.split_comma s) ->
                ~ In ","%char (list_ascii_of_string piece).
Proof.
  induction s as [|c rest IH]; intros piece Hin.
  - cbn in Hin. destruct Hin as [<-|[]]. cbn. tauto.
  - cbn [Js.split_comma] in Hin.
    destruct (Ascii.eqb_spec c ",") as [->|Hne].
    + destruct Hin as [<-|Hin]; [cbn; tauto | apply IH; exact Hin].
    + pose proof (split_comma_nonempty rest) as Hn.
      destruct (Js.split_comma rest) as [|h t]; [congruence|].
      destruct Hin as [<-|Hin].
      * cbn. intros [Hc|Hc]; [congruence|].
        apply (IH h); [left; reflexivity | exact Hc].
      * apply IH. right. exact Hin.
Qed.

(** X14.  The names handed to the load are the items of the option, all
    of them and as they were typed: joined again with commas they give
    back the option's text, so an empty item (a doubled or trailing
    comma) is handed on as an empty name and a space is part of the name;
    there is always at least one name, and no name contains a comma. *)
Theorem selection_keeps_every_item items :
  items <> "" ->
  String.concat "," (selection (Some items)) = items /\
  selection (Some items) <> [] /\
  forall name, In name (selection (Some items)) ->
               ~ In ","%char (list_ascii_of_string name).
Proof.
  intro Hne. destruct items as [|c rest]; [congruence|].
  cbn [selection]. split; [apply split_comma_concat|].
  split; [apply split_comma_nonempty | apply split_comma_pieces].
Qed.

Lemma length_append_string (a b : string) :
  String.length (a ++ b) = String.length a + String.length b.
Proof. induction a as [|c a IH]; cbn; [reflexivity | rewrite IH; reflexivity]. Qed.

Lemma length_fill c n : String.length (Js.fill c n) = n.
Proof. induction n as [|n IH]; cbn; [reflexivity | rewrite IH; reflexivity]. Qed.

Lemma length_padEnd s n c :
  String.length (Js.padEnd s n c) = Nat.max n (String.length s).
Proof.
  unfold Js.padEnd. rewrite length_append_string, length_fill. lia.
Qed.

(** X15.  A row of either table is never cut: its width is 5 plus the
    width of the name column, 28 or the length of a longer name, plus the
    width of the count column, 15 or the length of a longer count.  With
    a name of at most 28 characters and a count of at most 15 that is 48,
    the width of the heading lines. *)
Theorem table_row_width name count :
  String.length (table_row name count)
  = 5 + Nat.max 28 (String.length name) + Nat.max 15 (String.length count).
Proof.
  unfold table_row. rewrite !length_append_string, !length_padEnd. cbn. lia.
Qed.
(* ===================================================================== *)
(** ** Runs in the sample world *)
(* ===================================================================== *)


(** C2.  A name outside the switch stops the load when it has no fixture
    file.  With the option "foo,users" in the sample world, where
    [users.json] exists and [foo.json] does not: reading [foo.json] throws
    before the switch is reached, so the console has no line about the
    invalid name, the error is reported by the handler of
    [insertCollections], and the loop never gets to "users": no insert and
    no count is issued, and the users collection is left empty. *)
Theorem unknown_name_without_file_stops_load :
  fst (main Sample.parse Sample.as_given (Some "foo,users") Sample.world)
  = Exit 0 /\
  console (snd (main Sample.parse Sample.as_given (Some "foo,users")
                  Sample.world))
  = (console (snd (listSampleData Sample.parse Sample.world))
     ++ [ stdout "Database reset completed.";
          stderr (Js.two_args Js.red "Error adding collections: ")
                 Sample.enoent ])%list /\
  ~ In (stdout (Js.two_args Js.red "Invalid collection name: foo"))
       (console (snd (main Sample.parse Sample.as_given (Some "foo,users")
                        Sample.world))) /\
  calls (snd (main Sample.parse Sample.as_given (Some "foo,users")
                Sample.world))
  = [ Connect "talawa-api"; StartSession; BeginTransaction 0;
      DeleteMany Community None; DeleteMany User None;
      DeleteMany Organization None; DeleteMany ActionItemCategory None;
      DeleteMany AgendaCategoryModel None; DeleteMany Event None;
      DeleteMany Venue None; DeleteMany RecurrenceRule None;
      DeleteMany Post None; DeleteMany AppUserProfile None;
      CommitTransaction 0; EndSession 0 ] /\
  fixture Sample.parse Sample.files "users"
  = Some (JArray Sample.users_docs) /\
  db (snd (main Sample.parse Sample.as_given (Some "foo,users") Sample.world))
     User = [].
Proof.
  split; [reflexivity|]. split; [vm_compute; reflexivity|].
  split; [|repeat split].
  intro H. vm_compute in H.
  repeat (destruct H as [H|H]; [discriminate H|]). exact H.
Qed.

(** C3, as the specification words it, fails when a name is listed twice:
    with the list "posts", "posts" the load completes and the posts
    collection holds two documents, while [posts.json] has one record. *)
Lemma count_matches_fixture_fails_on_repeated_name :
  ~ count_matches_fixture Sample.parse Sample.as_given
      ["posts"; "posts"] Sample.world.
Proof.
  intro H.
  specialize (H "posts" Post Sample.posts_docs
                (snd (insertCollections_try Sample.parse Sample.as_given
                        ["posts"; "posts"] Sample.world))).
  assert (K : 2 = 1); [|discriminate K].
  apply H.
  - left. reflexivity.
  - reflexivity.
  - vm_compute. reflexivity.
  - reflexivity.
Qed.

Lemma load_count_is_fixture_count_per_occurrence_witness :
  List.length
    (db (snd (insertCollections_try Sample.parse Sample.as_given
                ["posts"; "users"; "posts"] Sample.world)) User)
  = count_occ string_dec ["posts"; "users"; "posts"] "users"
    * List.length Sample.users_docs.
Proof.
  apply (load_count_is_fixture_count_per_occurrence
           Sample.parse Sample.as_given ["posts"; "users"; "posts"]
           Sample.world
           (snd (insertCollections_try Sample.parse Sample.as_given
                   ["posts"; "users"; "posts"] Sample.world))
           "users" User Sample.users_docs).
  - reflexivity.
  - vm_compute. reflexivity.
  - reflexivity.
Defined.

Lemma pipeline_twice_same_counts_witness :
  List.length
    (db (snd (main Sample.parse Sample.as_given (Some "users,events")
                (rerun Sample.parse Sample.as_given (Some "users,events")
                   (fun _ => None) Sample.world))) User)
  = List.length
      (db (snd (main Sample.parse Sample.as_given (Some "users,events")
                  Sample.world)) User).
Proof.
  apply (pipeline_twice_same_counts Sample.parse Sample.as_given
           (Some "users,events") Sample.world (fun _ => None) User).
  - vm_compute. reflexivity.
  - vm_compute. reflexivity.
Defined.

Lemma partial_selection_users_events_witness :
  exists w',
    main Sample.parse Sample.as_given (Some "users,events") Sample.world
    = (Exit 0, w') /\
    db w' User = Sample.users_docs /\
    db w' Post = [] /\
    In (stdout (table_row "posts" "0")) (console w').
Proof.
  destruct (partial_selection_users_events Sample.parse Sample.as_given
              Sample.world
              (JArray Sample.users_docs) (JArray Sample.events_docs))
    as [w' [E [_ [Hu [_ [Hempty [_ Hrows]]]]]]].
  - intro n. reflexivity.
  - reflexivity.
  - reflexivity.
  - exists w'. split; [exact E|]. split; [exact Hu|]. split.
    + apply Hempty; discriminate.
    + apply (Hrows "posts" Post); [|discriminate|discriminate].
      cbn. tauto.
Defined.

Lemma resetDatabase_deletions_outside_transaction_witness :
  fst (resetDatabase Sample.world_delete_fails) = Throw Sample.network_error /\
  In (AbortTransaction 0)
     (calls (snd (resetDatabase Sample.world_delete_fails))) /\
  db (snd (resetDatabase Sample.world_delete_fails)) Community = [] /\
  db (snd (resetDatabase Sample.world_delete_fails)) User = [Sample.stale] /\
  ~ In 0 (live_sessions (snd (resetDatabase Sample.world_delete_fails))).
Proof.
  destruct (resetDatabase_deletions_outside_transaction
              Sample.world_delete_fails 0
              (snd (startSession Sample.world_delete_fails)))
    as [_ [[k [closing [Hcalls Hcase]]] [_ [Hdb [_ [Hlive _]]]]]].
  - reflexivity.
  - destruct Hcase as [[Hok _] | [e [Hcb [Hthrow [_ Hclose]]]]].
    + vm_compute in Hok. discriminate Hok.
    + vm_compute in Hcb. injection Hcb as <-. subst closing.
      split; [exact Hthrow|]. split.
      * rewrite Hcalls. apply in_or_app. right. unfold reset_trace.
        right. right. apply in_or_app. right. left. reflexivity.
      * rewrite Hdb. split; [vm_compute; reflexivity|].
        split; [vm_compute; reflexivity | exact Hlive].
Defined.

Lemma listSampleData_reports_array_lengths_witness :
  console (snd (listSampleData Sample.parse Sample.world))
  = [ stdout ("Sample Data Files:" ++ Js.nl);
      stdout (table_header "| File Name");
      stdout (table_row "events.json" "1");
      stdout (table_row "posts.json" "1");
      stdout (table_row "users.json" "2");
      stdout "" ].
Proof.
  apply (listSampleData_reports_array_lengths Sample.parse Sample.world
           ["events.json"; "images"; "posts.json"; "users.json"]
           Sample.is_fixture Sample.elements).
  - reflexivity.
  - intros f [<-|[<-|[<-|[<-|[]]]]]; reflexivity.
  - intros f [<-|[<-|[<-|[<-|[]]]]] Hf; try discriminate Hf;
      eexists; split; reflexivity.
Defined.

Lemma resetDatabase_empties_Community_witness :
  db (snd (resetDatabase Sample.world)) Community = [] /\
  db (snd (for_of ["users"; "posts"]
             (insert_one Sample.parse Sample.as_given)
             (snd (resetDatabase Sample.world)))) Community = [].
Proof.
  destruct (resetDatabase_empties_Community Sample.parse Sample.as_given
              ["users"; "posts"] Sample.world
              (snd (resetDatabase Sample.world)))
    as [H1 [H2 _]].
  - vm_compute. reflexivity.
  - split; [exact H1 | exact H2].
Defined.

(* ===================================================================== *)
(** ** The further properties in the sample worlds *)
(* ===================================================================== *)

Lemma listSampleData_stops_at_first_failure_witness :
  console (snd (listSampleData Sample.parse Sample.world_with_readme))
  = (console Sample.world_with_readme
     ++ [stdout ("Sample Data Files:" ++ Js.nl);
         stdout (table_header "| File Name")]
     ++ listed_rows Sample.parse (fs Sample.world_with_readme) ["events.json"]
     ++ [stderr (Js.two_args Js.red "Error listing sample data: ")
                Sample.syntax_error])%list.
Proof.
  apply (listSampleData_stops_at_first_failure Sample.parse
           Sample.world_with_readme ["events.json"] "README.md" ["users.json"]
           Sample.syntax_error).
  - reflexivity.
  - intros f [<-|[]]. eexists. vm_compute. reflexivity.
  - vm_compute. reflexivity.
Defined.

Lemma list_entry_rejects_value_without_length_witness :
  exists e,
    list_entry Sample.parse_null Sample.null_files "users.json" = inl e /\
    err_name e = "TypeError".
Proof.
  apply (list_entry_rejects_value_without_length Sample.parse_null
           Sample.null_files "users.json" "null" JNull).
  - reflexivity.
  - reflexivity.
  - reflexivity.
  - exact I.
Defined.

Lemma default_run_loads_every_fixture_witness :
  db (snd (main Sample.parse Sample.as_given None Sample.full_world)) Community
  = [] /\
  exists docs,
    fixture Sample.parse (fs Sample.full_world) "venue" = Some docs /\
    db (snd (main Sample.parse Sample.as_given None Sample.full_world)) Venue
    = map (Sample.as_given Venue) (docs_of docs).
Proof.
  destruct (default_run_loads_every_fixture Sample.parse Sample.as_given
              None Sample.full_world) as [H1 H2].
  - left. reflexivity.
  - vm_compute. reflexivity.
  - split; [exact H1|]. apply (H2 "venue" Venue). cbn. tauto.
Defined.

Lemma load_stops_at_first_failing_turn_witness :
  fst (insertCollections Sample.parse Sample.as_given
         (["users"] ++ "foo" :: ["events"])%list Sample.world)
  = Exit 0 /\
  db (snd (insert_one Sample.parse Sample.as_given "foo"
             (snd (load_steps Sample.parse Sample.as_given ["users"]
                     Sample.world)))) User
  = loaded Sample.parse Sample.as_given (fs Sample.world) User ["users"].
Proof.
  destruct (load_stops_at_first_failing_turn Sample.parse Sample.as_given
              ["users"] "foo" ["events"] Sample.enoent Sample.world
              (snd (load_steps Sample.parse Sample.as_given ["users"]
                      Sample.world))
              (snd (insert_one Sample.parse Sample.as_given "foo"
                      (snd (load_steps Sample.parse Sample.as_given ["users"]
                              Sample.world)))))
    as [E [Hdb _]].
  - vm_compute. reflexivity.
  - vm_compute. reflexivity.
  - split; [rewrite E; reflexivity | apply Hdb; discriminate].
Defined.


Lemma unknown_names_with_files_only_print_witness :
  exists w',
    for_of ["extras"] (insert_one Sample.parse Sample.as_given)
      Sample.full_world = (Ok tt, w') /\
    only_console Sample.full_world w'.
Proof.
  destruct (unknown_names_with_files_only_print Sample.parse Sample.as_given
              ["extras"] Sample.full_world) as [w' [E [Ho _]]].
  - intros c [<-|[]]. split; [reflexivity|].
    eexists. vm_compute. reflexivity.
  - exists w'. split; [exact E | exact Ho].
Defined.

Lemma run_leaves_sessions_as_found_witness :
  live_sessions
    (snd (main Sample.parse Sample.as_given (Some "users,events")
            Sample.world_delete_fails))
  = live_sessions Sample.world_delete_fails /\
  txn (snd (main Sample.parse Sample.as_given (Some "users,events")
              Sample.world_delete_fails)) = None.
Proof.
  apply (run_leaves_sessions_as_found Sample.parse Sample.as_given
           (Some "users,events") Sample.world_delete_fails).
  - intros s [].
  - reflexivity.
Defined.

Lemma failed_deletion_leaves_partial_reset_witness :
  fst (resetDatabase Sample.world_delete_fails) = Throw Sample.network_error /\
  db (snd (resetDatabase Sample.world_delete_fails)) Community = [] /\
  db (snd (resetDatabase Sample.world_delete_fails)) Post = [Sample.stale].
Proof.
  destruct (failed_deletion_leaves_partial_reset Sample.world_delete_fails 1
              {| error := Sample.network_error; written := 0 |})
    as [E [H1 [_ H3]]].
  - lia.
  - reflexivity.
  - intros i Hi. destruct i; [reflexivity | lia].
  - reflexivity.
  - split; [exact E|]. split.
    + apply H1. cbn. tauto.
    + apply (H3 Post). cbn. tauto.
Defined.

Lemma clean_load_round_trips_witness :
  calls (snd (insertCollections_try Sample.parse Sample.as_given
                ["users"; "events"] Sample.world))
  = (calls Sample.world
     ++ Connect "talawa-api" :: reset_calls (next_session Sample.world)
     ++ insert_calls Sample.parse (fs Sample.world) ["users"; "events"]
     ++ count_calls)%list.
Proof.
  apply (clean_load_round_trips Sample.parse Sample.as_given
           ["users"; "events"] Sample.world).
  - intro n. reflexivity.
  - vm_compute. reflexivity.
Defined.

Lemma failed_count_truncates_report_witness :
  fst (checkCountAfterImport Sample.world_delete_fails) = Ok tt /\
  console (snd (checkCountAfterImport Sample.world_delete_fails))
  = (console Sample.world_delete_fails
     ++ [ stdout (Js.nl ++ "Document Counts After Import:" ++ Js.nl);
          stdout (table_header "| Collection Name") ]
     ++ count_rows (db Sample.world_delete_fails) (firstn 1 count_collections)
     ++ [stderr (Js.two_args Js.red "Error checking document count: ")
                (error {| error := Sample.network_error; written := 0 |})])%list.
Proof.
  apply (failed_count_truncates_report Sample.world_delete_fails 1
           {| error := Sample.network_error; written := 0 |}).
  - lia.
  - reflexivity.
  - intros i Hi. destruct i; [reflexivity | lia].
  - reflexivity.
Defined.

Lemma selection_keeps_every_item_witness :
  String.concat "," (selection (Some "users,,events ")) = "users,,events " /\
  selection (Some "users,,events ") <> [] /\
  forall name, In name (selection (Some "users,,events ")) ->
               ~ In ","%char (list_ascii_of_string name).
Proof.
  apply (selection_keeps_every_item "users,,events "). discriminate.
Defined.

Lemma clean_load_console_witness :
  console (snd (insertCollections_try Sample.parse Sample.as_given
                  ["users"; "extras"] Sample.full_world))
  = (console Sample.full_world
     ++ [stdout "Database reset completed."]
     ++ load_lines ["users"; "extras"]
     ++ count_report
          (db (snd (insertCollections_try Sample.parse Sample.as_given
                      ["users"; "extras"] Sample.full_world)))
     ++ [stdout (Js.nl ++ "Collections added successfully")])%list.
Proof.
  apply (clean_load_console Sample.parse Sample.as_given
           ["users"; "extras"] Sample.full_world).
  - intro n. reflexivity.
  - vm_compute. reflexivity.
Defined.
